(** * The Presto [sequence] vector function of Velox

    A shallow embedding of [velox/functions/prestosql/Sequence.cpp]:
    the per-domain helpers [toInt64] and [add], the row validation
    [checkArguments], the step inference [getStep], the fill loop
    [writeToElements] and the two-pass batch kernel [apply], followed by
    the properties of the kernel.

    Conventions.  A C++ integer of width [w] is a [Z] together with the
    two's-complement wrap-around [Int.wrap w] applied where the source
    computes in that width.  An exception raised by a [VELOX_USER_CHECK]
    is the [Throw] result of the [checked] type.  An access outside a
    buffer has no defined behaviour in C++: it is the [None] result of
    [store] or of a lookup, and of everything that runs after it. *)

From Stdlib Require Import ZArith Lia Sorted.
From stdpp Require Import base option list numbers strings.

Local Open Scope Z_scope.

(** ** Fixed-width signed integers *)

Module Int.

(** The value kept by a signed [w]-bit integer that is assigned [z]. *)
Definition wrap (w z : Z) : Z := (z + 2 ^ (w - 1)) mod 2 ^ w - 2 ^ (w - 1).

Definition min_signed (w : Z) : Z := - 2 ^ (w - 1).
Definition max_signed (w : Z) : Z := 2 ^ (w - 1) - 1.

(** [z] is a value of the signed [w]-bit type. *)
Definition fits (w z : Z) : Prop := min_signed w <= z <= max_signed w.

Definition fitsb (w z : Z) : bool :=
  (min_signed w <=? z) && (z <=? max_signed w).

End Int.

(** Conversion to [int32_t] ([vector_size_t], [int]), [int64_t] and
    [int128_t]. *)
Definition int32 : Z -> Z := Int.wrap 32.
Definition int64 : Z -> Z := Int.wrap 64.
Definition int128 : Z -> Z := Int.wrap 128.

(** [int64_t * int64_t] and [int64_t + int64_t]. *)
Definition mul64 (a b : Z) : Z := int64 (a * b).
Definition add64 (a b : Z) : Z := int64 (a + b).

(** ** User errors

    Every failure of the kernel is a [VELOX_USER_CHECK]; the four call
    sites are told apart by a tag, [what] gives the text of each. *)

Inductive UserError : Set :=
| ZeroStep
| DirectionMismatch
| ResultTooLarge
| InvalidDateStepUnit.

Inductive checked (A : Type) : Type :=
| Ok (a : A)
| Throw (e : UserError).
Arguments Ok {A} a.
Arguments Throw {A} e.

Definition what (e : UserError) : string :=
  match e with
  | ZeroStep => "step must not be zero"
  | DirectionMismatch =>
      "sequence stop value should be greater than or equal to start value if step is greater than zero otherwise stop should be less than or equal to start"
  | ResultTooLarge =>
      "result of sequence function must not have more than 10000 entries"
  | InvalidDateStepUnit =>
      "sequence step must be a day interval if start and end values are dates"
  end.

Definition bindChecked {A B} (c : checked A) (f : A -> checked B) : checked B :=
  match c with
  | Ok a => f a
  | Throw e => Throw e
  end.

(** ** Element domains

    [create] instantiates [SequenceFunction<T>] for three type kinds, and
    [toInt64] and [add] are specialised for each of them. *)

Inductive TypeKind : Set := BIGINT | DATE | TIMESTAMP.

(** Modelled from the spec: the class [Date] is declared outside
    Sequence.cpp.  The spec gives it as a calendar date whose ordinal is
    its day count; [days] reads the count and the constructor [Date]
    stores one. *)
Record Date : Set := mkDate { days : Z }.

(** Modelled from the spec: the class [Timestamp] is declared outside
    Sequence.cpp.  The spec gives its ordinal as the milliseconds since
    the epoch and calls the conversion lossless; [toMillis] reads the
    count and [fromMillis] builds the timestamp of a count. *)
Record Timestamp : Set := fromMillis { toMillis : Z }.

Definition native (k : TypeKind) : Set :=
  match k with
  | BIGINT => Z
  | DATE => Date
  | TIMESTAMP => Timestamp
  end.

Definition toInt64 {k : TypeKind} : native k -> Z :=
  match k with
  | BIGINT => fun value => value
  | DATE => fun value => days value
  | TIMESTAMP => fun value => toMillis value
  end.

Definition add {k : TypeKind} : native k -> Z -> native k :=
  match k with
  | BIGINT => fun value steps => add64 value steps
  | DATE => fun value steps => mkDate (add64 (days value) steps)
  | TIMESTAMP => fun value steps => fromMillis (add64 (toMillis value) steps)
  end.

(** [args[0]->type()->isDate()] *)
Definition isDateKind (k : TypeKind) : bool :=
  match k with
  | DATE => true
  | _ => false
  end.

(** A value whose ordinal is a signed 64-bit integer. *)
Definition representable {k : TypeKind} (v : native k) : Prop :=
  Int.fits 64 (toInt64 v).

(** ** Constants *)

Definition kMaxResultEntries : Z := 10000.

(** Modelled from the spec: [kMillisInDay] is declared outside
    Sequence.cpp; it is the number of milliseconds in one day. *)
Definition kMillisInDay : Z := 86400000.

(** ** Decoded columns *)

(** Modelled from the spec: [DecodedVector] is declared outside
    Sequence.cpp.  The spec has the decoded columns addressable by row
    index: [valueAt<T>(row)] reads the value of a row. *)
Definition DecodedVector (T : Type) : Type := nat -> T.
Definition valueAt {T} (v : DecodedVector T) (row : nat) : T := v row.

(** ** Step inference: [getStep]

    [stepVector] is [None] for the null pointer of the two-argument
    form.  [%] and [/] on [int64_t] truncate towards zero. *)
Definition getStep (start stop : Z) (stepVector : option (DecodedVector Z))
    (row : nat) (isDate : bool) : checked Z :=
  match stepVector with
  | None => Ok (if stop >=? start then 1 else -1)
  | Some stepVector =>
      let step := valueAt stepVector row in
      if negb isDate then Ok step
      else if negb (Z.rem step kMillisInDay =? 0) then Throw InvalidDateStepUnit
      else Ok (int64 (Z.quot step kMillisInDay))
  end.

(** ** Validation and sizing: [checkArguments] *)

(** [step > 0 ? stop >= start : stop <= start] *)
Definition directionOk (start stop step : Z) : bool :=
  if step >? 0 then stop >=? start else stop <=? start.

(** [((int128_t)stop - (int128_t)start) / step + 1], every operation in
    128 bits. *)
Definition sequenceCount128 (start stop step : Z) : Z :=
  int128 (int128 (Z.quot (int128 (int128 stop - int128 start)) (int128 step)) + 1).

Definition checkArguments (start stop step : Z) : checked Z :=
  if step =? 0 then Throw ZeroStep
  else if negb (directionOk start stop step) then Throw DirectionMismatch
  else
    let sequenceCount := sequenceCount128 start stop step in
    if negb (sequenceCount <=? kMaxResultEntries) then Throw ResultTooLarge
    else Ok (int32 sequenceCount).

(** The size a row gets in the first pass of [apply]: step inference,
    then validation. *)
Definition rowSize (start stop : Z) (stepVector : option (DecodedVector Z))
    (row : nat) (isDate : bool) : checked Z :=
  bindChecked (getStep start stop stepVector row isDate)
              (checkArguments start stop).

(** ** Buffers *)

(** [mem[idx] = v] on the buffer [mem]; [None] when the slot lies outside
    the buffer.  A read [mem[idx]] is the lookup [mem !! idx], [None]
    outside the buffer as well. *)
Definition store {T} (mem : list T) (idx : Z) (v : T) : option (list T) :=
  if bool_decide (0 <= idx < Z.of_nat (length mem))
  then Some (<[Z.to_nat idx := v]> mem)
  else None.

(** ** Fill pass: [writeToElements] *)

(** The loop [for (auto i = 0; i < sequenceCount; ++i)] with [todo]
    iterations left and the counter at [i]; the destination pointer
    [elements] of the source is the buffer [mem] with the index [base] of
    the slice. *)
Fixpoint fillFrom {k : TypeKind} (todo : nat) (i : Z) (mem : list (native k))
    (base : Z) (start : native k) (step : Z) : option (list (native k)) :=
  match todo with
  | O => Some mem
  | S todo' =>
      mem' ← store mem (base + i) (add start (mul64 step i));
      fillFrom todo' (int32 (i + 1)) mem' base start step
  end.

Definition writeToElements {k : TypeKind} (mem : list (native k)) (base : Z)
    (isDate : bool) (sequenceCount : Z)
    (startVector stopVector : DecodedVector (native k))
    (stepVector : option (DecodedVector Z)) (row : nat)
    : option (checked (list (native k))) :=
  let start := valueAt startVector row in
  let stop := valueAt stopVector row in
  match getStep (toInt64 start) (toInt64 stop) stepVector row isDate with
  | Throw e => Some (Throw e)
  | Ok step =>
      mem' ← fillFrom (Z.to_nat sequenceCount) 0 mem base start step;
      Some (Ok mem')
  end.

(** ** The batch kernel: [apply] *)

(** Modelled from the spec: [SelectivityVector] is declared outside
    Sequence.cpp.  The spec has a selection mask over the row indices of
    the batch: bit [row] tells whether the row is selected, and
    [rows.end()] is the length of the mask. *)
Definition SelectivityVector : Type := list bool.
Definition rowsEnd (rows : SelectivityVector) : nat := length rows.

(** Modelled from the spec: [EvalCtx] is declared outside Sequence.cpp.
    The spec has the error of a failed row collected alongside the rows
    that succeed: the context is the list of the errors caught, with
    their rows, in the order they were raised. *)
Definition EvalCtx : Type := list (nat * UserError).
Definition setError (row : nat) (e : UserError) (context : EvalCtx) : EvalCtx :=
  context ++ [(row, e)].

(** Modelled from the spec: [applyToSelectedNoThrow] is declared outside
    Sequence.cpp.  The spec has the selected rows processed in order, a
    failure of one row recorded for that row and the scan going on with
    the next: [func] works on the state [St] it captured by reference and
    may end by throwing. *)
Fixpoint applyFrom {St : Type}
    (func : nat -> St -> option (St * option UserError))
    (row : nat) (bits : list bool) (context : EvalCtx) (s : St)
    : option (EvalCtx * St) :=
  match bits with
  | [] => Some (context, s)
  | selected :: bits' =>
      if selected then
        '(s', thrown) ← func row s;
        applyFrom func (S row) bits'
          (match thrown with
           | Some e => setError row e context
           | None => context
           end) s'
      else applyFrom func (S row) bits' context s
  end.

Definition applyToSelectedNoThrow {St : Type} (rows : SelectivityVector)
    (func : nat -> St -> option (St * option UserError))
    (context : EvalCtx) (s : St) : option (EvalCtx * St) :=
  applyFrom func 0%nat rows context s.

(** The arguments of a call: [args[0]], [args[1]] and, when
    [args.size() == 3], [args[2]]. *)
Record Args (k : TypeKind) : Type := mkArgs {
  startVector : DecodedVector (native k);
  stopVector : DecodedVector (native k);
  stepVector : option (DecodedVector Z)
}.
Arguments mkArgs {k}.
Arguments startVector {k}.
Arguments stopVector {k}.
Arguments stepVector {k}.

(** Modelled from the spec: [allocateSizes] and [allocateOffsets] are
    declared outside Sequence.cpp.  The spec has size 0 for a row that is
    never written and a default offset for it: both buffers start filled
    with zeros. *)
Definition allocateSizes (numRows : nat) : list Z := replicate numRows 0.
Definition allocateOffsets (numRows : nat) : list Z := replicate numRows 0.

(** Modelled from the spec: [BaseVector::create] is declared outside
    Sequence.cpp.  The spec has one element buffer of the requested
    length and says nothing of its content, which is taken from the
    memory pool: slot [i] starts as [pool i]. *)
Definition createElements {T} (pool : nat -> T) (numElements : Z) : list T :=
  map pool (seq 0 (Z.to_nat numElements)).

(** What the first lambda of [apply] captures and changes. *)
Record SizePass : Type := mkSizePass {
  rawSizes : list Z;
  numElements : Z
}.

(** What the second lambda of [apply] captures and changes. *)
Record FillPass (T : Type) : Type := mkFillPass {
  rawOffsets : list Z;
  rawElements : list T;
  elementsOffset : Z
}.
Arguments mkFillPass {T}.
Arguments rawOffsets {T}.
Arguments rawElements {T}.
Arguments elementsOffset {T}.

(** The result column. *)
Record ArrayVector (T : Type) : Type := mkArrayVector {
  numRows : nat;
  offsets : list Z;
  sizes : list Z;
  elements : list T
}.
Arguments mkArrayVector {T}.
Arguments numRows {T}.
Arguments offsets {T}.
Arguments sizes {T}.
Arguments elements {T}.

(** The body of the first lambda. *)
Definition sizeRow {k : TypeKind} (args : Args k) (isDate : bool) (row : nat)
    (s : SizePass) : option (SizePass * option UserError) :=
  let start := toInt64 (valueAt (startVector args) row) in
  let stop := toInt64 (valueAt (stopVector args) row) in
  match getStep start stop (stepVector args) row isDate with
  | Throw e => Some (s, Some e)
  | Ok step =>
      match checkArguments start stop step with
      | Throw e => Some (s, Some e)
      | Ok count =>
          rawSizes' ← store (rawSizes s) (Z.of_nat row) count;
          size ← rawSizes' !! row;
          Some (mkSizePass rawSizes' (int32 (numElements s + size)), None)
      end
  end.

(** The body of the second lambda. *)
Definition fillRow {k : TypeKind} (args : Args k) (isDate : bool)
    (rawSizes : list Z) (row : nat) (s : FillPass (native k))
    : option (FillPass (native k) * option UserError) :=
  sequenceCount ← rawSizes !! row;
  if sequenceCount =? 0 then Some (s, None)
  else
    rawOffsets' ← store (rawOffsets s) (Z.of_nat row) (elementsOffset s);
    r ← writeToElements (rawElements s) (elementsOffset s) isDate sequenceCount
          (startVector args) (stopVector args) (stepVector args) row;
    match r with
    | Throw e =>
        Some (mkFillPass rawOffsets' (rawElements s) (elementsOffset s), Some e)
    | Ok rawElements' =>
        size ← rawSizes !! row;
        Some (mkFillPass rawOffsets' rawElements'
                (int32 (elementsOffset s + size)), None)
    end.

(** [SequenceFunction<T>::apply].  [pool] is the state of the memory the
    element buffer is taken from and [context] the errors recorded before
    the call; the result is the column handed to [moveOrCopyResult] and
    the errors after the call, or [None] after an access outside a
    buffer. *)
Definition apply {k : TypeKind} (pool : nat -> native k)
    (rows : SelectivityVector) (args : Args k) (context : EvalCtx)
    : option (EvalCtx * ArrayVector (native k)) :=
  let numRows := rowsEnd rows in
  let isDate := isDateKind k in
  '(context1, pass1) ←
    applyToSelectedNoThrow rows (sizeRow args isDate) context
      (mkSizePass (allocateSizes numRows) 0);
  let elements := createElements pool (numElements pass1) in
  '(context2, pass2) ←
    applyToSelectedNoThrow rows (fillRow args isDate (rawSizes pass1)) context1
      (mkFillPass (allocateOffsets numRows) elements 0);
  Some (context2,
        mkArrayVector numRows (rawOffsets pass2) (rawSizes pass1)
          (rawElements pass2)).

(** A column given by the list of its values, for concrete batches. *)
Definition columnOf {T} (d : T) (l : list T) : DecodedVector T :=
  fun row => nth row l d.

(** ** What the kernel is expected to produce

    The functions below describe the result of [apply] row by row; the
    theorems compare the kernel with them. *)

(** The values [add(start, step * i)] for [i] from [from] on, [count] of
    them. *)
Definition progressionFrom {k : TypeKind} (start : native k) (step : Z)
    (from count : nat) : list (native k) :=
  map (fun i => add start (mul64 step (Z.of_nat i))) (seq from count).

Definition progression {k : TypeKind} (start : native k) (step : Z)
    (count : nat) : list (native k) :=
  progressionFrom start step 0 count.

(** The columns hold values of their types: 64-bit ordinals and steps. *)
Definition wellTyped {k : TypeKind} (args : Args k) : Prop :=
  forall row : nat,
    representable (valueAt (startVector args) row) /\
    representable (valueAt (stopVector args) row) /\
    (forall sv, stepVector args = Some sv -> Int.fits 64 (valueAt sv row)).

(** Step inference and validation of a row of the batch. *)
Definition stepOfRow {k : TypeKind} (args : Args k) (row : nat) : checked Z :=
  getStep (toInt64 (valueAt (startVector args) row))
          (toInt64 (valueAt (stopVector args) row))
          (stepVector args) row (isDateKind k).

Definition validateRow {k : TypeKind} (args : Args k) (row : nat) : checked Z :=
  rowSize (toInt64 (valueAt (startVector args) row))
          (toInt64 (valueAt (stopVector args) row))
          (stepVector args) row (isDateKind k).

(** The size of a selected row: its count, or 0 when it fails. *)
Definition sizeOfRow {k : TypeKind} (args : Args k) (row : nat) : Z :=
  match validateRow args row with
  | Ok count => count
  | Throw _ => 0
  end.

(** The elements of a selected row. *)
Definition sliceOfRow {k : TypeKind} (args : Args k) (row : nat)
    : list (native k) :=
  match stepOfRow args row with
  | Ok step =>
      progression (valueAt (startVector args) row) step
        (Z.to_nat (sizeOfRow args row))
  | Throw _ => []
  end.

(** Sizes, elements and errors of the rows [row], [row + 1], ... whose
    selection bits are [bits]. *)
Fixpoint sizesFrom {k : TypeKind} (args : Args k) (row : nat)
    (bits : list bool) : list Z :=
  match bits with
  | [] => []
  | selected :: bits' =>
      (if selected then sizeOfRow args row else 0)
        :: sizesFrom args (S row) bits'
  end.

Fixpoint slicesFrom {k : TypeKind} (args : Args k) (row : nat)
    (bits : list bool) : list (native k) :=
  match bits with
  | [] => []
  | selected :: bits' =>
      (if selected then sliceOfRow args row else [])
        ++ slicesFrom args (S row) bits'
  end.

(** The offsets that go with a list of sizes, [offset] being the number
    of elements before them: a row without elements keeps offset 0. *)
Fixpoint offsetsOf (offset : Z) (sizes : list Z) {struct sizes} : list Z :=
  match sizes with
  | [] => []
  | size :: sizes' =>
      (if size =? 0 then 0 else offset) :: offsetsOf (offset + size) sizes'
  end.

Fixpoint errorsFrom {k : TypeKind} (args : Args k) (row : nat)
    (bits : list bool) : EvalCtx :=
  match bits with
  | [] => []
  | selected :: bits' =>
      (if selected then
         match validateRow args row with
         | Ok _ => []
         | Throw e => [(row, e)]
         end
       else [])
        ++ errorsFrom args (S row) bits'
  end.

Definition sumZ (l : list Z) : Z := foldr Z.add 0 l.

(** The number of elements of the whole batch. *)
Definition totalSize {k : TypeKind} (rows : SelectivityVector) (args : Args k)
    : Z :=
  sumZ (sizesFrom args 0 rows).



(** ** Registration: [signatures] and [create] *)

(** What [FunctionSignatureBuilder] is given: the names of the return
    type and of the argument types, in order. *)
Record FunctionSignature : Type := mkSignature {
  returnType : string;
  argumentTypes : list string
}.

Definition signatures : list FunctionSignature :=
  [ mkSignature "array(bigint)" ["bigint"; "bigint"];
    mkSignature "array(bigint)" ["bigint"; "bigint"; "bigint"];
    mkSignature "array(date)" ["date"; "date"];
    mkSignature "array(date)" ["date"; "date"; "interval day to second"];
    mkSignature "array(timestamp)"
      ["timestamp"; "timestamp"; "interval day to second"] ].

(** The kind of [inputArgs[0].type]: one of the three kinds the switch
    of [create] names, or any other kind of the host. *)
Inductive InputKind : Set :=
| KnownKind (k : TypeKind)
| OtherKind.

(** [create]: the kernel [SequenceFunction<T>] is given by the kind it
    is instantiated for; [None] is [VELOX_UNREACHABLE]. *)
Definition create (kind : InputKind) : option TypeKind :=
  match kind with
  | KnownKind BIGINT => Some BIGINT
  | KnownKind DATE => Some DATE
  | KnownKind TIMESTAMP => Some TIMESTAMP
  | OtherKind => None
  end.

(** The name of the element type of a kernel and of the type its step
    argument is declared with. *)
Definition typeName (k : TypeKind) : string :=
  match k with
  | BIGINT => "bigint"
  | DATE => "date"
  | TIMESTAMP => "timestamp"
  end.

Definition stepTypeName (k : TypeKind) : string :=
  match k with
  | BIGINT => "bigint"
  | _ => "interval day to second"
  end.

(** ** Reading the result column *)

(** The array of a row: the [size] elements from [offset] on. *)
Definition rowArray {T} (out : ArrayVector T) (row : nat) : option (list T) :=
  offset ← offsets out !! row;
  size ← sizes out !! row;
  Some (take (Z.to_nat size) (drop (Z.to_nat offset) (elements out))).

(** The step of a row as [getStep] reads it, if a step column is
    supplied. *)
Definition stepAt {k : TypeKind} (args : Args k) (row : nat) : option Z :=
  match stepVector args with
  | Some sv => Some (valueAt sv row)
  | None => None
  end.

(** Two calls have the same values in the selected rows. *)
Definition agreeOn {k : TypeKind} (rows : SelectivityVector)
    (args args' : Args k) : Prop :=
  forall row : nat, rows !! row = Some true ->
    valueAt (startVector args) row = valueAt (startVector args') row /\
    valueAt (stopVector args) row = valueAt (stopVector args') row /\
    stepAt args row = stepAt args' row.

(** * Properties *)

(** ** Fixed-width arithmetic *)

Module IntFacts.

Lemma pow2_split w : 0 < w -> 2 ^ w = 2 * 2 ^ (w - 1).
Proof.
  intros Hw. replace w with (Z.succ (w - 1)) at 1 by lia.
  apply Z.pow_succ_r. lia.
Qed.

Lemma wrap_fits w z : 0 < w -> Int.fits w z -> Int.wrap w z = z.
Proof.
  unfold Int.fits, Int.min_signed, Int.max_signed, Int.wrap.
  intros Hw Hz. pose proof (pow2_split w Hw) as Hp.
  rewrite Z.mod_small; lia.
Qed.

Lemma fits_wrap w z : 0 < w -> Int.fits w (Int.wrap w z).
Proof.
  unfold Int.fits, Int.min_signed, Int.max_signed, Int.wrap.
  intros Hw. pose proof (pow2_split w Hw) as Hp.
  assert (0 < 2 ^ (w - 1)) by (apply Z.pow_pos_nonneg; lia).
  pose proof (Z.mod_pos_bound (z + 2 ^ (w - 1)) (2 ^ w)). lia.
Qed.

Lemma wrap_add_wrap w a b :
  0 < w -> Int.wrap w (a + Int.wrap w b) = Int.wrap w (a + b).
Proof.
  unfold Int.wrap. intros Hw. f_equal.
  replace (a + ((b + 2 ^ (w - 1)) mod 2 ^ w - 2 ^ (w - 1)) + 2 ^ (w - 1))
    with (a + (b + 2 ^ (w - 1)) mod 2 ^ w) by lia.
  rewrite Zplus_mod_idemp_r. f_equal. lia.
Qed.

Lemma fits_widen w w' z : 0 < w <= w' -> Int.fits w z -> Int.fits w' z.
Proof.
  unfold Int.fits, Int.min_signed, Int.max_signed. intros Hw Hz.
  assert (2 ^ (w - 1) <= 2 ^ (w' - 1)) by (apply Z.pow_le_mono_r; lia).
  lia.
Qed.

Lemma fitsb_fits w z : Int.fitsb w z = true <-> Int.fits w z.
Proof. unfold Int.fitsb, Int.fits. rewrite andb_true_iff, !Z.leb_le. tauto. Qed.

End IntFacts.

Lemma fits64_iff z : Int.fits 64 z <-> - 9223372036854775808 <= z <= 9223372036854775807.
Proof. reflexivity. Qed.

Lemma fits32_iff z : Int.fits 32 z <-> - 2147483648 <= z <= 2147483647.
Proof. reflexivity. Qed.

Lemma fits128_iff z :
  Int.fits 128 z <->
  - 170141183460469231731687303715884105728 <= z
     <= 170141183460469231731687303715884105727.
Proof. reflexivity. Qed.

Lemma int32_fits z : Int.fits 32 z -> int32 z = z.
Proof. apply IntFacts.wrap_fits. lia. Qed.

Lemma int64_fits z : Int.fits 64 z -> int64 z = z.
Proof. apply IntFacts.wrap_fits. lia. Qed.

Lemma int128_fits z : Int.fits 128 z -> int128 z = z.
Proof. apply IntFacts.wrap_fits. lia. Qed.

Lemma add64_mul64 a b c :
  Int.fits 64 (a + b * c) -> add64 a (mul64 b c) = a + b * c.
Proof.
  intros H. unfold add64, mul64, int64.
  rewrite IntFacts.wrap_add_wrap by lia. now apply int64_fits.
Qed.

(** Truncating division never grows its dividend. *)
Lemma quot_abs_le a b : b <> 0 -> Z.abs (Z.quot a b) <= Z.abs a.
Proof.
  intros Hb. rewrite <- Z.quot_abs by assumption.
  rewrite Z.quot_div_nonneg by lia.
  apply Z.div_le_upper_bound; nia.
Qed.

(** ** Validation and sizing *)

Lemma directionOk_eq start stop step :
  directionOk start stop step =
  if 0 <? step then start <=? stop else stop <=? start.
Proof. unfold directionOk. now rewrite Z.gtb_ltb, Z.geb_leb. Qed.

Lemma getStep_default start stop row isDate :
  getStep start stop None row isDate = Ok (if start <=? stop then 1 else -1).
Proof. unfold getStep. now rewrite Z.geb_leb. Qed.

Section Validation.

Variables start stop step : Z.
Hypothesis Hstart : Int.fits 64 start.
Hypothesis Hstop : Int.fits 64 stop.
Hypothesis Hstep : Int.fits 64 step.
Hypothesis Hnz : step <> 0.

(** The mathematical count of the row. *)
Let count : Z := Z.quot (stop - start) step + 1.

Lemma sequenceCount128_exact :
  Int.fits 128 (stop - start) /\
  Int.fits 128 (Z.quot (stop - start) step) /\
  Int.fits 128 count /\
  sequenceCount128 start stop step = count.
Proof.
  pose proof (quot_abs_le (stop - start) step Hnz) as Hq.
  rewrite fits64_iff in Hstart, Hstop, Hstep.
  assert (H1 : Int.fits 128 (stop - start)) by (rewrite fits128_iff; lia).
  assert (H2 : Int.fits 128 (Z.quot (stop - start) step))
    by (rewrite fits128_iff; lia).
  assert (H3 : Int.fits 128 count) by (subst count; rewrite fits128_iff; lia).
  split; [assumption|]. split; [assumption|]. split; [assumption|].
  unfold sequenceCount128.
  rewrite (int128_fits stop), (int128_fits start), (int128_fits step)
    by (rewrite fits128_iff; lia).
  rewrite (int128_fits (stop - start)) by assumption.
  rewrite (int128_fits (Z.quot _ _)) by assumption.
  now apply int128_fits.
Qed.

Hypothesis Hdir : directionOk start stop step = true.

Lemma quot_nonneg : 0 <= Z.quot (stop - start) step.
Proof.
  rewrite directionOk_eq in Hdir.
  destruct (Z.ltb_spec 0 step).
  - apply Z.leb_le in Hdir. apply Z.quot_pos; lia.
  - apply Z.leb_le in Hdir.
    rewrite <- Z.quot_opp_opp by assumption. apply Z.quot_pos; lia.
Qed.

(** The remainder left after the last element. *)
Lemma last_gap :
  (0 < step -> 0 <= stop - (start + step * Z.quot (stop - start) step) < step) /\
  (step < 0 -> step < stop - (start + step * Z.quot (stop - start) step) <= 0).
Proof.
  pose proof (Z.quot_rem' (stop - start) step) as Hqr.
  rewrite directionOk_eq in Hdir.
  destruct (Z.ltb_spec 0 step).
  - apply Z.leb_le in Hdir.
    pose proof (Z.rem_bound_pos (stop - start) step). lia.
  - apply Z.leb_le in Hdir.
    pose proof (Z.rem_bound_pos (- (stop - start)) (- step)) as Hb.
    rewrite Z.rem_opp_opp in Hb by assumption. lia.
Qed.

(** Every element of the progression lies between start and stop. *)
Lemma progression_between i :
  0 <= i <= Z.quot (stop - start) step ->
  (0 < step -> start <= start + step * i <= stop) /\
  (step < 0 -> stop <= start + step * i <= start).
Proof.
  intros Hi. destruct last_gap as [Hp Hn]. split; intros Hs.
  - specialize (Hp Hs). nia.
  - specialize (Hn Hs). nia.
Qed.

Lemma progression_fits i :
  0 <= i <= Z.quot (stop - start) step -> Int.fits 64 (start + step * i).
Proof.
  intros Hi. destruct (progression_between i Hi) as [Hp Hn].
  rewrite fits64_iff in *. destruct (Z.lt_total 0 step) as [?|[?|?]]; lia.
Qed.

Lemma checkArguments_passed :
  1 <= count /\
  checkArguments start stop step =
    if count <=? kMaxResultEntries then Ok count else Throw ResultTooLarge.
Proof.
  pose proof quot_nonneg as Hq. split; [subst count; lia|].
  unfold checkArguments.
  destruct (Z.eqb_spec step 0) as [|_]; [contradiction|].
  rewrite Hdir. cbn [negb].
  destruct sequenceCount128_exact as (_ & _ & _ & ->). fold count.
  destruct (Z.leb_spec count kMaxResultEntries) as [Hle|Hgt]; cbn [negb].
  - f_equal. apply int32_fits. rewrite fits32_iff.
    unfold kMaxResultEntries in Hle. subst count. lia.
  - reflexivity.
Qed.

End Validation.

(** ** The fill loop *)

Lemma store_middle {T} (pre post : list T) (x v : T) :
  store (pre ++ x :: post) (Z.of_nat (length pre)) v = Some (pre ++ v :: post).
Proof.
  unfold store. rewrite bool_decide_eq_true_2.
  - rewrite Nat2Z.id.
    replace (length pre) with (length pre + 0)%nat at 1 by lia.
    now rewrite insert_app_r.
  - rewrite length_app. cbn [length]. lia.
Qed.

Lemma progressionFrom_S {k} (start : native k) step from count :
  progressionFrom start step from (S count) =
  add start (mul64 step (Z.of_nat from))
    :: progressionFrom start step (S from) count.
Proof. reflexivity. Qed.

Lemma length_progressionFrom {k} (start : native k) step from count :
  length (progressionFrom start step from count) = count.
Proof. unfold progressionFrom. now rewrite length_map, length_seq. Qed.

Lemma lookup_progression {k} (start : native k) step count i :
  (i < count)%nat ->
  progression start step count !! i = Some (add start (mul64 step (Z.of_nat i))).
Proof.
  intros Hi. unfold progression, progressionFrom.
  rewrite list_lookup_fmap, lookup_seq_lt by assumption. reflexivity.
Qed.

Lemma progression_app {k} (start : native k) step n m :
  progression start step n ++ progressionFrom start step n m =
  progression start step (n + m).
Proof.
  unfold progression, progressionFrom.
  now rewrite <- map_app, <- seq_app.
Qed.

(** Running the loop for [todo] more iterations once [done] slots are
    written: the next [todo] slots of the slice get their values and
    nothing else changes. *)
Lemma fillFrom_run {k} (start : native k) step todo :
  forall (done : nat) (pre written rest post : list (native k)),
    length written = done ->
    length rest = todo ->
    Z.of_nat (done + todo) <= Int.max_signed 32 ->
    fillFrom todo (Z.of_nat done) (pre ++ written ++ rest ++ post)
      (Z.of_nat (length pre)) start step =
    Some (pre ++ written ++ progressionFrom start step done todo ++ post).
Proof.
  induction todo as [|todo IH]; intros done pre written rest post Hw Hr Hmax.
  - destruct rest; [reflexivity | discriminate].
  - destruct rest as [|x rest]; [discriminate|].
    injection Hr as Hr. cbn [fillFrom].
    replace (Z.of_nat (length pre) + Z.of_nat done)
      with (Z.of_nat (length (pre ++ written)))
      by (rewrite length_app; lia).
    replace (pre ++ written ++ (x :: rest) ++ post)
      with ((pre ++ written) ++ x :: rest ++ post)
      by (now rewrite <- app_assoc).
    rewrite store_middle. cbn [mbind option_bind].
    rewrite int32_fits
      by (rewrite fits32_iff; change (Int.max_signed 32) with 2147483647 in Hmax; lia).
    replace (Z.of_nat done + 1) with (Z.of_nat (S done)) by lia.
    replace ((pre ++ written) ++ add start (mul64 step (Z.of_nat done)) :: rest ++ post)
      with (pre ++ (written ++ [add start (mul64 step (Z.of_nat done))]) ++ rest ++ post)
      by (now rewrite <- !app_assoc).
    rewrite (IH (S done)); [| rewrite length_app; cbn [length]; lia | lia | lia].
    rewrite progressionFrom_S. now rewrite <- !app_assoc.
Qed.

Lemma writeToElements_run {k} (args : Args k) row step count
    (pre region post : list (native k)) :
  stepOfRow args row = Ok step ->
  0 <= count <= Int.max_signed 32 ->
  Z.of_nat (length region) = count ->
  writeToElements (pre ++ region ++ post) (Z.of_nat (length pre)) (isDateKind k)
    count (startVector args) (stopVector args) (stepVector args) row =
  Some (Ok (pre ++ progression (valueAt (startVector args) row) step
                     (Z.to_nat count) ++ post)).
Proof.
  intros Hstep Hcount Hlen. unfold writeToElements.
  unfold stepOfRow in Hstep. rewrite Hstep.
  pose proof (fillFrom_run (valueAt (startVector args) row) step
                (Z.to_nat count) 0 pre [] region post) as Hrun.
  cbn [app] in Hrun. change (Z.of_nat 0) with 0 in Hrun.
  rewrite Hrun; [reflexivity | reflexivity | lia | lia].
Qed.

(** ** What validation lets through *)

Lemma checkArguments_Ok_inv start stop step count :
  Int.fits 64 start -> Int.fits 64 stop -> Int.fits 64 step ->
  checkArguments start stop step = Ok count ->
  step <> 0 /\ directionOk start stop step = true /\
  count = Z.quot (stop - start) step + 1 /\
  1 <= count <= kMaxResultEntries.
Proof.
  intros Hstart Hstop Hstep Hok.
  assert (Hnz : step <> 0).
  { intros ->. discriminate Hok. }
  assert (Hdir : directionOk start stop step = true).
  { unfold checkArguments in Hok.
    destruct (Z.eqb_spec step 0); [contradiction|].
    destruct (directionOk start stop step); [reflexivity | discriminate]. }
  destruct (checkArguments_passed start stop step Hstart Hstop Hstep Hnz Hdir)
    as [Hpos Heq].
  rewrite Heq in Hok.
  destruct (Z.leb_spec (Z.quot (stop - start) step + 1) kMaxResultEntries);
    [|discriminate].
  injection Hok as <-. repeat split; first [assumption | lia].
Qed.

Lemma getStep_fits start stop stepVector row isDate step :
  (forall sv, stepVector = Some sv -> Int.fits 64 (valueAt sv row)) ->
  getStep start stop stepVector row isDate = Ok step ->
  Int.fits 64 step.
Proof.
  intros Hsv. unfold getStep. destruct stepVector as [sv|].
  - specialize (Hsv sv eq_refl). destruct isDate; cbn [negb].
    + destruct (Z.rem (valueAt sv row) kMillisInDay =? 0); cbn [negb];
        [|discriminate].
      intros [= <-]. apply IntFacts.fits_wrap. lia.
    + now intros [= <-].
  - intros [= <-]. rewrite fits64_iff. destruct (stop >=? start); lia.
Qed.

Lemma validateRow_eq {k} (args : Args k) row :
  validateRow args row =
  bindChecked (stepOfRow args row)
    (checkArguments (toInt64 (valueAt (startVector args) row))
                    (toInt64 (valueAt (stopVector args) row))).
Proof. reflexivity. Qed.

(** A well-typed row with a size other than 0 passed both checks. *)
Lemma sizeOfRow_inv {k} (args : Args k) row :
  wellTyped args ->
  sizeOfRow args row <> 0 ->
  exists step,
    stepOfRow args row = Ok step /\ Int.fits 64 step /\
    checkArguments (toInt64 (valueAt (startVector args) row))
                   (toInt64 (valueAt (stopVector args) row)) step
      = Ok (sizeOfRow args row) /\
    1 <= sizeOfRow args row <= kMaxResultEntries.
Proof.
  intros Hwt Hsz. destruct (Hwt row) as (Hstart & Hstop & Hsv).
  unfold sizeOfRow in *. rewrite validateRow_eq in *.
  destruct (stepOfRow args row) as [step|e] eqn:Hstep; cbn [bindChecked] in *;
    [|contradiction].
  pose proof (getStep_fits _ _ _ _ _ _ Hsv Hstep) as Hfit.
  destruct (checkArguments _ _ step) as [count|e] eqn:Hchk; [|contradiction].
  destruct (checkArguments_Ok_inv _ _ _ _ Hstart Hstop Hfit Hchk)
    as (_ & _ & _ & Hb).
  exists step. split; [reflexivity|]. split; [assumption|].
  split; [exact Hchk | assumption].
Qed.

Lemma sizeOfRow_bounds {k} (args : Args k) row :
  wellTyped args -> 0 <= sizeOfRow args row <= kMaxResultEntries.
Proof.
  intros Hwt. destruct (Z.eq_dec (sizeOfRow args row) 0) as [->|Hnz].
  - unfold kMaxResultEntries. lia.
  - destruct (sizeOfRow_inv args row Hwt Hnz) as (_ & _ & _ & _ & H). lia.
Qed.

Lemma length_sliceOfRow {k} (args : Args k) row :
  wellTyped args ->
  Z.of_nat (length (sliceOfRow args row)) = sizeOfRow args row.
Proof.
  intros Hwt. destruct (Z.eq_dec (sizeOfRow args row) 0) as [Hz|Hnz].
  - unfold sliceOfRow. rewrite Hz.
    destruct (stepOfRow args row); reflexivity.
  - destruct (sizeOfRow_inv args row Hwt Hnz) as (step & Hstep & _ & _ & Hb).
    unfold sliceOfRow. rewrite Hstep. unfold progression.
    rewrite length_progressionFrom. lia.
Qed.

Lemma sizesFrom_nonneg {k} (args : Args k) bits :
  wellTyped args -> forall row, 0 <= sumZ (sizesFrom args row bits).
Proof.
  intros Hwt. induction bits as [|b bits IH]; intros row; cbn.
  - lia.
  - specialize (IH (S row)). pose proof (sizeOfRow_bounds args row Hwt).
    unfold sumZ in IH. destruct b; lia.
Qed.

(** A batch of at most 214,748 rows has a total that fits
    [vector_size_t]. *)
Lemma sizesFrom_le {k} (args : Args k) bits :
  wellTyped args ->
  forall row,
    sumZ (sizesFrom args row bits) <= Z.of_nat (length bits) * kMaxResultEntries.
Proof.
  intros Hwt. induction bits as [|b bits IH]; intros row.
  - cbn. lia.
  - specialize (IH (S row)). pose proof (sizeOfRow_bounds args row Hwt) as Hb.
    cbn [sizesFrom length]. unfold sumZ in *. cbn [foldr].
    unfold kMaxResultEntries in *. destruct b; lia.
Qed.

Lemma totalSize_fits {k} (rows : SelectivityVector) (args : Args k) :
  wellTyped args ->
  Z.of_nat (length rows) * kMaxResultEntries <= Int.max_signed 32 ->
  totalSize rows args <= Int.max_signed 32.
Proof.
  intros Hwt Hrows. pose proof (sizesFrom_le args rows Hwt 0%nat).
  unfold totalSize. lia.
Qed.

(** ** The two passes of [apply] *)

Lemma insert_middle {T} (pre post : list T) (x v : T) :
  <[length pre := v]> (pre ++ x :: post) = pre ++ v :: post.
Proof.
  replace (length pre) with (length pre + 0)%nat by lia.
  now rewrite insert_app_r.
Qed.

Lemma sizeRow_eq {k} (args : Args k) row s :
  sizeRow args (isDateKind k) row s =
  match validateRow args row with
  | Ok count =>
      rawSizes' ← store (rawSizes s) (Z.of_nat row) count;
      size ← rawSizes' !! row;
      Some (mkSizePass rawSizes' (int32 (numElements s + size)), None)
  | Throw e => Some (s, Some e)
  end.
Proof.
  unfold sizeRow, validateRow, rowSize.
  destruct (getStep _ _ _ _ _) as [step|e]; cbn [bindChecked]; [|reflexivity].
  destruct (checkArguments _ _ step); reflexivity.
Qed.

(** The first pass from row [row] on: the rows before it hold [done],
    the running total is [acc]. *)
Lemma sizePass_run {k} (args : Args k) bits :
  forall (row : nat) (done : list Z) (context : EvalCtx) (acc : Z),
    length done = row ->
    Int.fits 32 acc ->
    applyFrom (sizeRow args (isDateKind k)) row bits context
      (mkSizePass (done ++ replicate (length bits) 0) acc) =
    Some (context ++ errorsFrom args row bits,
          mkSizePass (done ++ sizesFrom args row bits)
            (int32 (acc + sumZ (sizesFrom args row bits)))).
Proof.
  induction bits as [|selected bits IH]; intros row done context acc Hlen Hacc.
  - cbn. rewrite Z.add_0_r, int32_fits, !app_nil_r by assumption. reflexivity.
  - cbn [applyFrom length replicate sizesFrom errorsFrom sumZ foldr].
    fold (sumZ (sizesFrom args (S row) bits)).
    destruct selected.
    + rewrite sizeRow_eq. cbn [rawSizes numElements].
      unfold sizeOfRow. destruct (validateRow args row) as [count|e].
      * subst row. rewrite store_middle. cbn [mbind option_bind].
        rewrite list_lookup_middle by reflexivity. cbn [mbind option_bind].
        rewrite (cons_middle count done), app_assoc.
        rewrite (cons_middle count done (sizesFrom _ _ _)), (app_assoc done).
        rewrite IH;
          [| rewrite length_app; cbn; lia | apply IntFacts.fits_wrap; lia].
        do 3 f_equal.
        unfold int32.
        rewrite (Z.add_comm (Int.wrap 32 _)), IntFacts.wrap_add_wrap by lia.
        f_equal. lia.
      * cbn [mbind option_bind].
        rewrite (cons_middle 0 done), app_assoc.
        rewrite (cons_middle 0 done (sizesFrom _ _ _)), (app_assoc done).
        rewrite IH; [| rewrite length_app; cbn; lia | assumption].
        unfold setError. rewrite <- app_assoc. reflexivity.
    + rewrite (cons_middle 0 done), app_assoc.
      rewrite (cons_middle 0 done (sizesFrom _ _ _)), (app_assoc done).
      rewrite IH; [| rewrite length_app; cbn; lia | assumption].
      reflexivity.
Qed.

Lemma fillRow_empty {k} (args : Args k) isDate allSizes row s :
  allSizes !! row = Some 0 ->
  fillRow args isDate allSizes row s = Some (s, None).
Proof. intros H. unfold fillRow. now rewrite H. Qed.

Lemma fillRow_fills {k} (args : Args k) allSizes row doneOffs x restOffs
    (filled region post : list (native k)) :
  wellTyped args ->
  allSizes !! row = Some (sizeOfRow args row) ->
  length doneOffs = row ->
  sizeOfRow args row <> 0 ->
  Z.of_nat (length region) = sizeOfRow args row ->
  Z.of_nat (length filled) + sizeOfRow args row <= Int.max_signed 32 ->
  fillRow args (isDateKind k) allSizes row
    (mkFillPass (doneOffs ++ x :: restOffs) (filled ++ region ++ post)
       (Z.of_nat (length filled))) =
  Some (mkFillPass (doneOffs ++ Z.of_nat (length filled) :: restOffs)
          (filled ++ sliceOfRow args row ++ post)
          (Z.of_nat (length filled) + sizeOfRow args row),
        None).
Proof.
  intros Hwt Hsz HdO Hnz Hlen Hmax. subst row.
  destruct (sizeOfRow_inv args _ Hwt Hnz) as (step & Hstep & _ & _ & Hb).
  unfold fillRow. rewrite Hsz. cbn [mbind option_bind].
  destruct (Z.eqb_spec (sizeOfRow args (length doneOffs)) 0) as [|_];
    [contradiction|].
  cbn [rawElements elementsOffset rawOffsets].
  rewrite store_middle. cbn [mbind option_bind].
  change (Int.max_signed 32) with 2147483647 in Hmax.
  rewrite (writeToElements_run args _ step (sizeOfRow args (length doneOffs)))
    by first [assumption | change (Int.max_signed 32) with 2147483647; lia].
  cbn [mbind option_bind]. unfold sliceOfRow. rewrite Hstep.
  rewrite int32_fits by (rewrite fits32_iff; lia). reflexivity.
Qed.

(** The second pass from row [row] on: the slices of the rows before it
    are [filled], the rest of the buffer is still as allocated. *)
Lemma fillPass_run {k} (args : Args k) (Hwt : wellTyped args) bits :
  forall (row : nat) (allSizes doneSizes offs doneOffs : list Z)
         (mem filled garbage : list (native k)) (off : Z) (context : EvalCtx),
    allSizes = doneSizes ++ sizesFrom args row bits ->
    length doneSizes = row ->
    offs = doneOffs ++ replicate (length bits) 0 ->
    length doneOffs = row ->
    mem = filled ++ garbage ->
    off = Z.of_nat (length filled) ->
    Z.of_nat (length garbage) = sumZ (sizesFrom args row bits) ->
    off + sumZ (sizesFrom args row bits) <= Int.max_signed 32 ->
    applyFrom (fillRow args (isDateKind k) allSizes) row bits context
      (mkFillPass offs mem off) =
    Some (context,
          mkFillPass (doneOffs ++ offsetsOf off (sizesFrom args row bits))
            (filled ++ slicesFrom args row bits)
            (off + sumZ (sizesFrom args row bits))).
Proof.
  induction bits as [|selected bits IH];
    intros row allSizes doneSizes offs doneOffs mem filled garbage off context
           Hall HdS Hoffs HdO Hmem Hoff Hgar Hmax.
  - cbn in *. destruct garbage; [|discriminate].
    subst. now rewrite Z.add_0_r.
  - cbn [applyFrom length replicate sizesFrom slicesFrom offsetsOf sumZ foldr]
      in *.
    fold (sumZ (sizesFrom args (S row) bits)) in *.
    pose proof (sizesFrom_nonneg args bits Hwt (S row)) as Hrest.
    destruct selected.
    + assert (Hsz : allSizes !! row = Some (sizeOfRow args row)).
      { subst allSizes. now apply list_lookup_middle. }
      pose proof (sizeOfRow_bounds args row Hwt) as Hb.
      destruct (Z.eqb_spec (sizeOfRow args row) 0) as [Hz|Hnz].
      * rewrite fillRow_empty by congruence. cbn [mbind option_bind].
        pose proof (length_sliceOfRow args row Hwt) as Hsl.
        rewrite Hz in Hsl. destruct (sliceOfRow args row); [|discriminate].
        rewrite Hz in *.
        rewrite (IH (S row) allSizes (doneSizes ++ [0]) offs (doneOffs ++ [0])
                   mem filled garbage off context);
          try assumption; try lia.
        -- rewrite <- !app_assoc, Z.add_0_r. reflexivity.
        -- subst allSizes. now rewrite <- app_assoc.
        -- rewrite length_app. cbn. lia.
        -- subst offs. now rewrite <- app_assoc.
        -- rewrite length_app. cbn. lia.
      * set (n := Z.to_nat (sizeOfRow args row)).
        assert (Hn : Z.of_nat n = sizeOfRow args row) by (subst n; lia).
        assert (Hreg : Z.of_nat (length (take n garbage)) = sizeOfRow args row).
        { rewrite length_take. lia. }
        subst mem off offs. rewrite <- (take_drop n garbage).
        rewrite fillRow_fills by first [assumption | lia].
        cbn [mbind option_bind].
        pose proof (length_sliceOfRow args row Hwt) as Hsl.
        rewrite (IH (S row) allSizes (doneSizes ++ [sizeOfRow args row])
                   _ (doneOffs ++ [Z.of_nat (length filled)])
                   _ (filled ++ sliceOfRow args row) (drop n garbage)).
        -- rewrite <- !app_assoc. cbn [app]. do 3 f_equal. lia.
        -- subst allSizes. now rewrite <- app_assoc.
        -- rewrite length_app. cbn. lia.
        -- now rewrite <- app_assoc.
        -- rewrite length_app. cbn. lia.
        -- now rewrite <- app_assoc.
        -- rewrite length_app. lia.
        -- rewrite length_drop. lia.
        -- lia.
    +       rewrite (IH (S row) allSizes (doneSizes ++ [0]) offs (doneOffs ++ [0])
                 mem filled garbage off context);
        try assumption; try lia.
      * cbn [app]. rewrite <- !app_assoc, Z.add_0_r. reflexivity.
      * subst allSizes. now rewrite <- app_assoc.
      * rewrite length_app. cbn. lia.
      * subst offs. now rewrite <- app_assoc.
      * rewrite length_app. cbn. lia.
Qed.

(** The kernel computes the row-by-row description of its result. *)
Lemma apply_eq {k} (pool : nat -> native k) rows (args : Args k) context :
  wellTyped args ->
  totalSize rows args <= Int.max_signed 32 ->
  apply pool rows args context =
  Some (context ++ errorsFrom args 0 rows,
        mkArrayVector (length rows)
          (offsetsOf 0 (sizesFrom args 0 rows))
          (sizesFrom args 0 rows)
          (slicesFrom args 0 rows)).
Proof.
  intros Hwt Hmax. unfold apply, applyToSelectedNoThrow, rowsEnd, allocateSizes.
  pose proof (sizesFrom_nonneg args rows Hwt 0%nat) as Hnn.
  fold (totalSize rows args) in Hnn.
  pose proof (sizePass_run args rows 0%nat [] context 0 eq_refl) as Hpass1.
  cbn [app] in Hpass1. rewrite Hpass1 by (rewrite fits32_iff; lia).
  cbn [mbind option_bind app rawSizes numElements]. rewrite Z.add_0_l.
  fold (totalSize rows args).
  rewrite int32_fits
    by (rewrite fits32_iff; change (Int.max_signed 32) with 2147483647 in Hmax; lia).
  pose proof (fillPass_run args Hwt rows 0%nat (sizesFrom args 0 rows) []
                (allocateOffsets (length rows)) []
                (createElements pool (totalSize rows args)) []
                (createElements pool (totalSize rows args)) 0
                (context ++ errorsFrom args 0 rows)
                eq_refl eq_refl eq_refl eq_refl eq_refl eq_refl) as Hpass2.
  cbn [app] in Hpass2. rewrite Hpass2.
  - reflexivity.
  - unfold createElements. rewrite length_map, length_seq.
    fold (totalSize rows args). lia.
  - exact Hmax.
Qed.

(** ** Sizes, offsets and slices *)

Lemma sumZ_cons (x : Z) (l : list Z) : sumZ (x :: l) = x + sumZ l.
Proof. reflexivity. Qed.

Lemma sumZ_nonneg (l : list Z) : Forall (fun s => 0 <= s) l -> 0 <= sumZ l.
Proof. induction 1; rewrite ?sumZ_cons; cbn; lia. Qed.

Lemma sumZ_take_le (l : list Z) (n : nat) :
  Forall (fun s => 0 <= s) l -> 0 <= sumZ (take n l) <= sumZ l.
Proof.
  intros H. revert n. induction H as [|x l Hx Hl IH]; intros [|n]; cbn [take];
    rewrite ?sumZ_cons; try (cbn; lia).
  - pose proof (sumZ_nonneg l Hl). cbn. lia.
  - specialize (IH n). lia.
Qed.



Section Layout.

Context {k : TypeKind} (args : Args k) (Hwt : wellTyped args).

Lemma length_sizesFrom bits row : length (sizesFrom args row bits) = length bits.
Proof. revert row. induction bits as [|b bits IH]; intros row; cbn; auto. Qed.

Lemma lookup_sizesFrom (bits : list bool) : forall (row i : nat) (b : bool),
  bits !! i = Some b ->
  sizesFrom args row bits !! i =
    Some (if b then sizeOfRow args (row + i) else 0).
Proof.
  induction bits as [|b' bits IH]; intros row i b Hb; [discriminate|].
  destruct i as [|i]; cbn [sizesFrom].
  - injection Hb as ->. now rewrite Nat.add_0_r.
  - change (sizesFrom args (S row) bits !! i =
            Some (if b then sizeOfRow args (row + S i) else 0)).
    rewrite (IH (S row) i b Hb).
    now replace (S row + i)%nat with (row + S i)%nat by lia.
Qed.

Lemma sizesFrom_Forall bits row :
  Forall (fun s => 0 <= s) (sizesFrom args row bits).
Proof.
  revert row. induction bits as [|b bits IH]; intros row; cbn; constructor.
  - pose proof (sizeOfRow_bounds args row Hwt). destruct b; lia.
  - apply IH.
Qed.


Lemma length_slicesFrom bits row :
  Z.of_nat (length (slicesFrom args row bits)) = sumZ (sizesFrom args row bits).
Proof.
  revert row. induction bits as [|b bits IH]; intros row; cbn; [reflexivity|].
  rewrite length_app, Nat2Z.inj_add, IH.
  fold (sumZ (sizesFrom args (S row) bits)).
  destruct b; [rewrite length_sliceOfRow by assumption|]; reflexivity.
Qed.


End Layout.

Lemma length_offsetsOf sizes : forall off,
  length (offsetsOf off sizes) = length sizes.
Proof. induction sizes as [|s sizes IH]; intros off; cbn; auto. Qed.

Lemma lookup_offsetsOf (sizes : list Z) : forall (off : Z) (i : nat) (size : Z),
  sizes !! i = Some size ->
  offsetsOf off sizes !! i =
    Some (if size =? 0 then 0 else off + sumZ (take i sizes)).
Proof.
  induction sizes as [|s sizes IH]; intros off i size Hs; [discriminate|].
  destruct i as [|i]; cbn [offsetsOf take].
  - injection Hs as ->. cbn. now rewrite Z.add_0_r.
  - rewrite sumZ_cons.
    change (offsetsOf (off + s) sizes !! i =
            Some (if size =? 0 then 0 else off + (s + sumZ (take i sizes)))).
    rewrite (IH (off + s) i size Hs).
    destruct (size =? 0); [reflexivity | f_equal; lia].
Qed.

(** ** The element domains *)

Lemma toInt64_add {k} (v : native k) (steps : Z) :
  toInt64 (add v steps) = add64 (toInt64 v) steps.
Proof. destruct k; reflexivity. Qed.

Lemma add_0 {k} (v : native k) : representable v -> add v 0 = v.
Proof.
  unfold representable. intros Hv.
  destruct k; cbn in *; unfold add64; rewrite Z.add_0_r, int64_fits by assumption.
  - reflexivity.
  - now destruct v.
  - now destruct v.
Qed.

Lemma mul64_0_r step : mul64 step 0 = 0.
Proof. unfold mul64. now rewrite Z.mul_0_r. Qed.

(** Equal start and stop: one element, whatever the nonzero step. *)
Lemma checkArguments_same v step : step <> 0 -> checkArguments v v step = Ok 1.
Proof.
  intros Hnz. unfold checkArguments, sequenceCount128.
  destruct (Z.eqb_spec step 0) as [|_]; [contradiction|].
  rewrite directionOk_eq, Z.leb_refl, Z.sub_diag.
  destruct (0 <? step); reflexivity.
Qed.

(** Columns given by lists hold what their lists hold. *)
Lemma columnOf_all {T} (P : T -> Prop) (d : T) (l : list T) :
  P d -> Forall P l -> forall row, P (valueAt (columnOf d l) row).
Proof.
  intros Hd Hl row. unfold valueAt, columnOf. revert row.
  induction Hl as [|x l Hx Hl IH]; intros [|row]; cbn; auto.
Qed.

Ltac fits_now := rewrite ?fits64_iff, ?fits32_iff; cbn; lia.

(** Columns given by lists of 64-bit values are well typed. *)
Lemma wellTyped_columnOf {k} (d1 : native k) l1 (d2 : native k) l2
    (steps : option (Z * list Z)) :
  forallb (fun v => Int.fitsb 64 (toInt64 v)) (d1 :: l1) = true ->
  forallb (fun v => Int.fitsb 64 (toInt64 v)) (d2 :: l2) = true ->
  match steps with
  | Some (d, l) => forallb (Int.fitsb 64) (d :: l) = true
  | None => True
  end ->
  wellTyped (@mkArgs k (columnOf d1 l1) (columnOf d2 l2)
               match steps with
               | Some (d, l) => Some (columnOf d l)
               | None => None
               end).
Proof.
  intros H1 H2 H3 row. unfold representable. cbn [startVector stopVector stepVector].
  cbn [forallb] in H1, H2. apply andb_true_iff in H1 as [Hd1 Hl1].
  apply andb_true_iff in H2 as [Hd2 Hl2].
  rewrite forallb_forall in Hl1, Hl2.
  split; [|split].
  - apply (columnOf_all (fun v => Int.fits 64 (toInt64 v))).
    + now apply IntFacts.fitsb_fits.
    + apply List.Forall_forall. intros x Hx. now apply IntFacts.fitsb_fits, Hl1.
  - apply (columnOf_all (fun v => Int.fits 64 (toInt64 v))).
    + now apply IntFacts.fitsb_fits.
    + apply List.Forall_forall. intros x Hx. now apply IntFacts.fitsb_fits, Hl2.
  - intros sv Hsv. destruct steps as [[d l]|]; [|discriminate].
    injection Hsv as <-. cbn [forallb] in H3.
    apply andb_true_iff in H3 as [Hd Hl]. rewrite forallb_forall in Hl.
    apply (columnOf_all (Int.fits 64)).
    + now apply IntFacts.fitsb_fits.
    + apply List.Forall_forall. intros x Hx. now apply IntFacts.fitsb_fits, Hl.
Qed.

(** * The claims *)

(** ** Validation *)

(** C3.  For every ordinal triple, validation fails with the user error
    [ZeroStep] whenever the step is 0, whatever start and stop are, and
    with the user error [DirectionMismatch] whenever the step is positive
    and stop is below start or the step is negative and stop is above
    start; with start equal to stop the direction check passes for a step
    of either sign. *)
Theorem checkArguments_rejects (start stop step : Z) :
  (step = 0 -> checkArguments start stop step = Throw ZeroStep) /\
  (0 < step -> stop < start ->
   checkArguments start stop step = Throw DirectionMismatch) /\
  (step < 0 -> start < stop ->
   checkArguments start stop step = Throw DirectionMismatch) /\
  (start = stop -> step <> 0 ->
   directionOk start stop step = true /\
   checkArguments start stop step = Ok 1).
Proof.
  split; [|split; [|split]].
  - now intros ->.
  - intros Hs Hlt. unfold checkArguments.
    destruct (Z.eqb_spec step 0); [lia|].
    rewrite directionOk_eq. destruct (Z.ltb_spec 0 step); [|lia].
    destruct (Z.leb_spec start stop); [lia | reflexivity].
  - intros Hs Hlt. unfold checkArguments.
    destruct (Z.eqb_spec step 0); [lia|].
    rewrite directionOk_eq. destruct (Z.ltb_spec 0 step); [lia|].
    destruct (Z.leb_spec stop start); [lia | reflexivity].
  - intros -> Hnz. split; [|now apply checkArguments_same].
    rewrite directionOk_eq, Z.leb_refl. now destruct (0 <? step).
Qed.

Lemma checkArguments_rejects_witness :
  checkArguments 1 10 (-1) = Throw DirectionMismatch.
Proof.
  apply (proj1 (proj2 (proj2 (checkArguments_rejects 1 10 (-1))))); lia.
Defined.

(** C2, as the code has it.  For every row whose 64-bit ordinals pass the
    zero-step and direction checks, the count (stop - start) / step + 1 is
    computed in 128 bits without overflow of any intermediate term: the
    difference, the quotient and the count are 128-bit values, also when
    stop - start spans the whole 64-bit range.  Validation returns that
    count when it is at most 10,000 and fails with [ResultTooLarge]
    otherwise. *)
Theorem checkArguments_count_widened (start stop step : Z) :
  Int.fits 64 start -> Int.fits 64 stop -> Int.fits 64 step ->
  step <> 0 -> directionOk start stop step = true ->
  Int.fits 128 (stop - start) /\
  Int.fits 128 (Z.quot (stop - start) step) /\
  Int.fits 128 (Z.quot (stop - start) step + 1) /\
  sequenceCount128 start stop step = Z.quot (stop - start) step + 1 /\
  checkArguments start stop step =
    if Z.quot (stop - start) step + 1 <=? kMaxResultEntries
    then Ok (Z.quot (stop - start) step + 1)
    else Throw ResultTooLarge.
Proof.
  intros Hstart Hstop Hstep Hnz Hdir.
  destruct (sequenceCount128_exact start stop step Hstart Hstop Hstep Hnz)
    as (H1 & H2 & H3 & H4).
  destruct (checkArguments_passed start stop step Hstart Hstop Hstep Hnz Hdir)
    as [_ H5].
  repeat split; first [apply H1 | apply H2 | apply H3 | assumption].
Qed.

Lemma checkArguments_count_widened_witness :
  checkArguments (- 2 ^ 63) (2 ^ 63 - 1) (2 ^ 63 - 1) = Ok 3.
Proof.
  refine (proj2 (proj2 (proj2 (proj2
    (checkArguments_count_widened (- 2 ^ 63) (2 ^ 63 - 1) (2 ^ 63 - 1)
       _ _ _ _ _))))); first [fits_now | lia | reflexivity].
Defined.

(** C2, as stated, fails: the row (0, 10000, 1) passes the zero-step and
    direction checks and validation does not return its count 10,001. *)
Lemma checkArguments_count_not_returned :
  ~ (forall start stop step : Z,
       Int.fits 64 start -> Int.fits 64 stop -> Int.fits 64 step ->
       step <> 0 -> directionOk start stop step = true ->
       checkArguments start stop step = Ok (Z.quot (stop - start) step + 1)).
Proof.
  intros H. specialize (H 0 10000 1).
  assert (Hc : checkArguments 0 10000 1 = Throw ResultTooLarge) by reflexivity.
  rewrite Hc in H. discriminate H; first [fits_now | lia | reflexivity].
Qed.

(** C4.  For every validated row, a computed count of exactly 10,000
    succeeds and a computed count of 10,001 or more fails with the user
    error [ResultTooLarge]: 10,000 is the largest length validation lets
    through. *)
Theorem checkArguments_cap (start stop step : Z) :
  Int.fits 64 start -> Int.fits 64 stop -> Int.fits 64 step ->
  step <> 0 -> directionOk start stop step = true ->
  kMaxResultEntries = 10000 /\
  (Z.quot (stop - start) step + 1 = 10000 ->
   checkArguments start stop step = Ok 10000) /\
  (10001 <= Z.quot (stop - start) step + 1 ->
   checkArguments start stop step = Throw ResultTooLarge) /\
  (forall count, checkArguments start stop step = Ok count -> count <= 10000).
Proof.
  intros Hstart Hstop Hstep Hnz Hdir.
  destruct (checkArguments_passed start stop step Hstart Hstop Hstep Hnz Hdir)
    as [_ Heq].
  rewrite Heq. unfold kMaxResultEntries.
  split; [reflexivity|]. split; [|split].
  - intros ->. reflexivity.
  - intros Hbig. destruct (Z.leb_spec (Z.quot (stop - start) step + 1) 10000);
      [lia | reflexivity].
  - intros count.
    destruct (Z.leb_spec (Z.quot (stop - start) step + 1) 10000);
      [|discriminate].
    intros [= <-]. assumption.
Qed.

Lemma checkArguments_cap_witness :
  checkArguments 1 10000 1 = Ok 10000 /\
  checkArguments 1 10001 1 = Throw ResultTooLarge.
Proof.
  split.
  - refine (proj1 (proj2 (checkArguments_cap 1 10000 1 _ _ _ _ _)) _);
      first [fits_now | lia | reflexivity].
  - refine (proj1 (proj2 (proj2 (checkArguments_cap 1 10001 1 _ _ _ _ _))) _);
      first [fits_now | lia | reflexivity | (vm_compute; discriminate)].
Defined.

(** C6.  Whenever validation succeeds for a row the count is at least 1;
    and a row whose start equals its stop is valid for any nonzero step of
    either sign, with count 1, and the fill pass writes exactly the start
    value into its one slot. *)
Theorem validated_count_positive {k : TypeKind} (args : Args k) (row : nat)
    (step : Z) :
  let start := valueAt (startVector args) row in
  let stop := valueAt (stopVector args) row in
  wellTyped args ->
  stepOfRow args row = Ok step ->
  (forall count,
     checkArguments (toInt64 start) (toInt64 stop) step = Ok count ->
     1 <= count) /\
  (start = stop -> step <> 0 ->
   checkArguments (toInt64 start) (toInt64 stop) step = Ok 1 /\
   validateRow args row = Ok 1 /\
   forall (x : native k) (pre post : list (native k)),
     writeToElements (pre ++ [x] ++ post) (Z.of_nat (length pre)) (isDateKind k)
       1 (startVector args) (stopVector args) (stepVector args) row =
     Some (Ok (pre ++ [start] ++ post))).
Proof.
  intros start stop Hwt Hstep. destruct (Hwt row) as (Hstart & Hstop & Hsv).
  pose proof (getStep_fits _ _ _ _ _ _ Hsv Hstep) as Hfit.
  split.
  - intros count Hok.
    destruct (checkArguments_Ok_inv _ _ _ _ Hstart Hstop Hfit Hok)
      as (_ & _ & _ & Hb). lia.
  - intros Heq Hnz. fold start in Hstart. subst stop. rewrite <- Heq.
    assert (Hchk : checkArguments (toInt64 start) (toInt64 start) step = Ok 1)
      by now apply checkArguments_same.
    split; [exact Hchk|]. split.
    + rewrite validateRow_eq, Hstep. cbn [bindChecked].
      fold start. rewrite <- Heq. exact Hchk.
    + intros x pre post.
      rewrite (writeToElements_run args row step 1 pre [x] post Hstep);
        [| change (Int.max_signed 32) with 2147483647; lia | reflexivity].
      fold start.
      change (progression start step (Z.to_nat 1))
        with [add start (mul64 step 0)].
      rewrite mul64_0_r, add_0 by assumption. reflexivity.
Qed.

Lemma validated_count_positive_witness :
  writeToElements (k := BIGINT) [0] 0 false 1
    (columnOf 0 [7]) (columnOf 0 [7]) (Some (columnOf 0 [-3])) 0 =
  Some (Ok [7]).
Proof.
  assert (Hwt : wellTyped (@mkArgs BIGINT (columnOf 0 [7]) (columnOf 0 [7])
                             (Some (columnOf 0 [-3])))).
  { apply (wellTyped_columnOf (k := BIGINT) 0 [7] 0 [7] (Some (0, [-3])));
      reflexivity. }
  exact (proj2 (proj2 (proj2
           (validated_count_positive
              (@mkArgs BIGINT (columnOf 0 [7]) (columnOf 0 [7])
                 (Some (columnOf 0 [-3]))) 0%nat (-3) Hwt eq_refl)
           eq_refl ltac:(lia))) 0 [] []).
Defined.

(** ** Step inference *)

(** C5.  Without a step column the step is +1 when stop >= start and -1
    otherwise.  A supplied step is used unchanged when the domain is not
    Date.  For Date the supplied step, in milliseconds, must be an exact
    multiple of the milliseconds of a day: otherwise the user error
    [InvalidDateStepUnit] is raised, and the step is the supplied one
    divided by the milliseconds of a day. *)
Theorem getStep_inference (start stop : Z) (sv : DecodedVector Z) (row : nat)
    (isDate : bool) :
  (start <= stop -> getStep start stop None row isDate = Ok 1) /\
  (stop < start -> getStep start stop None row isDate = Ok (-1)) /\
  getStep start stop (Some sv) row false = Ok (valueAt sv row) /\
  (Z.rem (valueAt sv row) kMillisInDay <> 0 ->
   getStep start stop (Some sv) row true = Throw InvalidDateStepUnit) /\
  (Int.fits 64 (valueAt sv row) ->
   Z.rem (valueAt sv row) kMillisInDay = 0 ->
   getStep start stop (Some sv) row true =
     Ok (Z.quot (valueAt sv row) kMillisInDay) /\
   Z.quot (valueAt sv row) kMillisInDay * kMillisInDay = valueAt sv row).
Proof.
  rewrite getStep_default. unfold getStep.
  split; [|split; [|split; [|split]]].
  - intros H. destruct (Z.leb_spec start stop); [reflexivity | lia].
  - intros H. destruct (Z.leb_spec start stop); [lia | reflexivity].
  - reflexivity.
  - intros H. cbn [negb]. destruct (Z.eqb_spec (Z.rem (valueAt sv row) kMillisInDay) 0);
      [contradiction | reflexivity].
  - intros Hfit H. cbn [negb]. rewrite H. cbn [Z.eqb negb].
    assert (Hk : kMillisInDay <> 0) by discriminate.
    pose proof (quot_abs_le (valueAt sv row) kMillisInDay Hk) as Hq.
    pose proof (Z.quot_rem' (valueAt sv row) kMillisInDay) as Hqr.
    rewrite H in Hqr. rewrite fits64_iff in Hfit.
    set (q := Z.quot (valueAt sv row) kMillisInDay) in *. clearbody q.
    clear H Hk. unfold kMillisInDay in *.
    split.
    + f_equal. apply int64_fits. rewrite fits64_iff. lia.
    + lia.
Qed.

Lemma getStep_inference_witness :
  getStep 18262 18264 (Some (columnOf 0 [172800000])) 0 true = Ok 2.
Proof.
  refine (proj1 (proj2 (proj2 (proj2 (proj2
    (getStep_inference 18262 18264 (columnOf 0 [172800000]) 0%nat true))))
    _ _));
    first [reflexivity | (cbn; rewrite fits64_iff; lia)].
Defined.

(** C10.  For a Date row with a supplied step, the whole-day check of the
    step comes before the zero-step and direction checks: a step of 0
    milliseconds passes it and fails with [ZeroStep]; a step that is not a
    whole number of days fails with [InvalidDateStepUnit] whatever start
    and stop are, also when they are equal or the sign of the step goes
    against their direction, and that is the error recorded for the row by
    the first pass. *)
Theorem date_step_checked_first (args : Args DATE) (sv : DecodedVector Z)
    (row : nat) :
  stepVector args = Some sv ->
  (valueAt sv row = 0 ->
   stepOfRow args row = Ok 0 /\
   validateRow args row = Throw ZeroStep /\
   forall s, sizeRow args (isDateKind DATE) row s = Some (s, Some ZeroStep)) /\
  (Z.rem (valueAt sv row) kMillisInDay <> 0 ->
   stepOfRow args row = Throw InvalidDateStepUnit /\
   validateRow args row = Throw InvalidDateStepUnit /\
   forall s, sizeRow args (isDateKind DATE) row s =
             Some (s, Some InvalidDateStepUnit)).
Proof.
  intros Hsv. split.
  - intros Hz.
    assert (Hstep : stepOfRow args row = Ok 0).
    { unfold stepOfRow, getStep. rewrite Hsv, Hz. reflexivity. }
    assert (Hval : validateRow args row = Throw ZeroStep).
    { rewrite validateRow_eq, Hstep. reflexivity. }
    split; [exact Hstep|]. split; [exact Hval|].
    intros s. rewrite sizeRow_eq, Hval. reflexivity.
  - intros Hrem.
    assert (Hstep : stepOfRow args row = Throw InvalidDateStepUnit).
    { unfold stepOfRow, getStep. rewrite Hsv. cbn [isDateKind negb].
      destruct (Z.eqb_spec (Z.rem (valueAt sv row) kMillisInDay) 0);
        [contradiction | reflexivity]. }
    assert (Hval : validateRow args row = Throw InvalidDateStepUnit).
    { rewrite validateRow_eq, Hstep. reflexivity. }
    split; [exact Hstep|]. split; [exact Hval|].
    intros s. rewrite sizeRow_eq, Hval. reflexivity.
Qed.

Lemma date_step_checked_first_witness :
  validateRow
    (@mkArgs DATE (columnOf (mkDate 0) [mkDate 18263])
       (columnOf (mkDate 0) [mkDate 18262])
       (Some (columnOf 0 [43200000]))) 0 =
  Throw InvalidDateStepUnit.
Proof.
  refine (proj1 (proj2 (proj2
    (date_step_checked_first
       (@mkArgs DATE (columnOf (mkDate 0) [mkDate 18263])
          (columnOf (mkDate 0) [mkDate 18262])
          (Some (columnOf 0 [43200000])))
       (columnOf 0 [43200000]) 0%nat eq_refl) _)));
    cbn; discriminate.
Defined.

(** ** Domain conversion *)

(** C8.  In each element domain, adding zero steps to a representable
    value gives the value back: [add v 0 = v], and so its ordinal is
    unchanged. *)
Theorem add_zero_roundtrip {k : TypeKind} (v : native k) :
  representable v -> add v 0 = v /\ toInt64 (add v 0) = toInt64 v.
Proof.
  intros Hv. pose proof (add_0 v Hv) as H. split; [exact H | now rewrite H].
Qed.

Lemma add_zero_roundtrip_witness :
  add (k := BIGINT) (2 ^ 63 - 1) 0 = 2 ^ 63 - 1 /\
  add (k := DATE) (mkDate (-719162)) 0 = mkDate (-719162) /\
  add (k := TIMESTAMP) (fromMillis 1577836800123) 0 = fromMillis 1577836800123.
Proof.
  split; [|split].
  - refine (proj1 (add_zero_roundtrip (k := BIGINT) (2 ^ 63 - 1) _)).
    unfold representable. cbn. rewrite fits64_iff. lia.
  - refine (proj1 (add_zero_roundtrip (k := DATE) (mkDate (-719162)) _)).
    unfold representable. cbn. rewrite fits64_iff. lia.
  - refine (proj1 (add_zero_roundtrip (k := TIMESTAMP) (fromMillis 1577836800123) _)).
    unfold representable. cbn. rewrite fits64_iff. lia.
Defined.

(** ** The fill pass *)

(** C1.  For every row that passed validation with step [step] and count
    [count], the fill pass run on a region of [count] slots writes
    [add start (step * i)] into slot [i] for every [i] below [count] and
    touches nothing else; it does so in ascending order: after [j]
    iterations the first [j] slots are written and the others are as
    before, and the remaining iterations complete the slice.  The
    ordinals of the written values are the arithmetic
    progression start, start + step, start + 2 * step, ...; the last of
    them is less than one step away from stop, on the side of stop the
    step comes from.  For an integer row the ordinal is the value
    itself. *)
Theorem fill_pass_writes_progression {k : TypeKind} (args : Args k) (row : nat)
    (step count : Z) (pre region post : list (native k)) :
  let start := valueAt (startVector args) row in
  let stop := valueAt (stopVector args) row in
  wellTyped args ->
  stepOfRow args row = Ok step ->
  checkArguments (toInt64 start) (toInt64 stop) step = Ok count ->
  Z.of_nat (length region) = count ->
  writeToElements (pre ++ region ++ post) (Z.of_nat (length pre)) (isDateKind k)
    count (startVector args) (stopVector args) (stepVector args) row =
    Some (Ok (pre ++ progression start step (Z.to_nat count) ++ post)) /\
  (forall i : nat, (i < Z.to_nat count)%nat ->
     progression start step (Z.to_nat count) !! i =
       Some (add start (mul64 step (Z.of_nat i)))) /\
  (forall j : nat, (j <= Z.to_nat count)%nat ->
     fillFrom j 0 (pre ++ region ++ post) (Z.of_nat (length pre)) start step =
       Some (pre ++ progression start step j ++ drop j region ++ post) /\
     fillFrom (Z.to_nat count - j) (Z.of_nat j)
       (pre ++ progression start step j ++ drop j region ++ post)
       (Z.of_nat (length pre)) start step =
       Some (pre ++ progression start step (Z.to_nat count) ++ post)) /\
  (forall i : Z, 0 <= i < count ->
     toInt64 (add start (mul64 step i)) = toInt64 start + step * i) /\
  Z.abs (toInt64 start + step * (count - 1) - toInt64 stop) < Z.abs step /\
  (0 < step -> toInt64 start + step * (count - 1) <= toInt64 stop) /\
  (step < 0 -> toInt64 stop <= toInt64 start + step * (count - 1)).
Proof.
  intros start stop Hwt Hstep Hchk Hlen.
  destruct (Hwt row) as (Hstart & Hstop & Hsv).
  fold start in Hstart. fold stop in Hstop. unfold representable in Hstart, Hstop.
  pose proof (getStep_fits _ _ _ _ _ _ Hsv Hstep) as Hfit.
  destruct (checkArguments_Ok_inv _ _ _ _ Hstart Hstop Hfit Hchk)
    as (Hnz & Hdir & Hcount & Hb).
  unfold kMaxResultEntries in Hb.
  split; [|split; [|split; [|split]]].
  - apply writeToElements_run;
      [assumption | change (Int.max_signed 32) with 2147483647; lia | assumption].
  - intros i Hi. now apply lookup_progression.
  - intros j Hj. split.
    + pose proof (fillFrom_run start step j 0 pre [] (take j region)
                    (drop j region ++ post)) as Hrun.
      cbn [app] in Hrun.
      rewrite (app_assoc (take j region)), take_drop in Hrun.
      apply Hrun; [reflexivity | rewrite length_take; lia |].
      change (Int.max_signed 32) with 2147483647. lia.
    + pose proof (fillFrom_run start step (Z.to_nat count - j) j pre
                    (progression start step j) (drop j region) post) as Hrun.
      rewrite Hrun.
      * rewrite (app_assoc (progression start step j)).
        rewrite (progression_app start step j (Z.to_nat count - j)).
        now replace (j + (Z.to_nat count - j))%nat with (Z.to_nat count) by lia.
      * apply length_progressionFrom.
      * rewrite length_drop. lia.
      * change (Int.max_signed 32) with 2147483647. lia.
  - intros i Hi. rewrite toInt64_add. apply add64_mul64.
    apply (progression_fits (toInt64 start) (toInt64 stop));
      first [assumption | lia].
  - destruct (last_gap _ _ _ Hnz Hdir) as [Hpos Hneg].
    replace (count - 1) with (Z.quot (toInt64 stop - toInt64 start) step) by lia.
    destruct (Z.lt_total 0 step) as [Hs|[Hs|Hs]]; [| congruence |];
      [specialize (Hpos Hs) | specialize (Hneg Hs)]; lia.
Qed.

Lemma fill_pass_writes_progression_witness :
  writeToElements (k := BIGINT) [0; 0; 0] 0 false 3
    (columnOf 0 [5]) (columnOf 0 [1]) (Some (columnOf 0 [-2])) 0 =
  Some (Ok [5; 3; 1]).
Proof.
  assert (Hwt : wellTyped (@mkArgs BIGINT (columnOf 0 [5]) (columnOf 0 [1])
                             (Some (columnOf 0 [-2])))).
  { apply (wellTyped_columnOf (k := BIGINT) 0 [5] 0 [1] (Some (0, [-2])));
      reflexivity. }
  exact (proj1
           (fill_pass_writes_progression
              (@mkArgs BIGINT (columnOf 0 [5]) (columnOf 0 [1])
                 (Some (columnOf 0 [-2]))) 0%nat (-2) 3 [] [0; 0; 0] []
              Hwt eq_refl eq_refl eq_refl)).
Defined.

(** ** Output assembly *)



(** ** Determinism *)



(** ** The scenarios of the specification *)

Example sequence_1_5 :
  apply (k := BIGINT) (fun _ => 0) [true]
    (@mkArgs BIGINT (columnOf 0 [1]) (columnOf 0 [5]) None) [] =
  Some ([], mkArrayVector 1 [0] [5] [1; 2; 3; 4; 5]).
Proof. reflexivity. Qed.

Example sequence_5_1_by_minus_2 :
  apply (k := BIGINT) (fun _ => 0) [true]
    (@mkArgs BIGINT (columnOf 0 [5]) (columnOf 0 [1]) (Some (columnOf 0 [-2])))
    [] =
  Some ([], mkArrayVector 1 [0] [3] [5; 3; 1]).
Proof. reflexivity. Qed.

(** 2020-01-01 is day 18262. *)
Example sequence_of_dates :
  apply (k := DATE) (fun _ => mkDate 0) [true]
    (@mkArgs DATE (columnOf (mkDate 0) [mkDate 18262])
       (columnOf (mkDate 0) [mkDate 18264]) None) [] =
  Some ([], mkArrayVector 1 [0] [3] [mkDate 18262; mkDate 18263; mkDate 18264]).
Proof. reflexivity. Qed.

Example sequence_of_timestamps :
  apply (k := TIMESTAMP) (fun _ => fromMillis 0) [true]
    (@mkArgs TIMESTAMP (columnOf (fromMillis 0) [fromMillis 1577836800000])
       (columnOf (fromMillis 0) [fromMillis 1577836802000])
       (Some (columnOf 0 [1000]))) [] =
  Some ([], mkArrayVector 1 [0] [3]
              [fromMillis 1577836800000; fromMillis 1577836801000;
               fromMillis 1577836802000]).
Proof. reflexivity. Qed.

Example sequence_of_dates_by_12_hours :
  apply (k := DATE) (fun _ => mkDate 0) [true]
    (@mkArgs DATE (columnOf (mkDate 0) [mkDate 18262])
       (columnOf (mkDate 0) [mkDate 18263]) (Some (columnOf 0 [43200000]))) [] =
  Some ([(0%nat, InvalidDateStepUnit)], mkArrayVector 1 [0] [0] []).
Proof. reflexivity. Qed.

(** A failed row leaves the rows after it where they would be without
    it. *)
Example sequence_batch :
  apply (k := BIGINT) (fun _ => 777) [true; false; true; true; true]
    (@mkArgs BIGINT (columnOf 0 [1; 9; 5; 3; 1]) (columnOf 0 [5; 9; 1; 3; 10])
       (Some (columnOf 0 [1; 1; -2; 0; -1]))) [] =
  Some ([(3%nat, ZeroStep); (4%nat, DirectionMismatch)],
        mkArrayVector 5 [0; 0; 5; 0; 0] [5; 0; 3; 0; 0] [1; 2; 3; 4; 5; 5; 3; 1]).
Proof. reflexivity. Qed.

(** From the least to the greatest [int64_t] in steps of the greatest:
    [step * 2] wraps around in 64 bits and the element is right all the
    same. *)
Example sequence_over_the_whole_range :
  apply (k := BIGINT) (fun _ => 0) [true]
    (@mkArgs BIGINT (columnOf 0 [- 2 ^ 63]) (columnOf 0 [2 ^ 63 - 1])
       (Some (columnOf 0 [2 ^ 63 - 1]))) [] =
  Some ([], mkArrayVector 1 [0] [3] [- 2 ^ 63; -1; 2 ^ 63 - 2]).
Proof. vm_compute. reflexivity. Qed.

(** In 64 bits the difference of that row would not be the difference. *)
Example difference_needs_more_than_64_bits :
  int64 ((2 ^ 63 - 1) - (- 2 ^ 63)) = -1 /\
  int128 ((2 ^ 63 - 1) - (- 2 ^ 63)) = 2 ^ 64 - 1.
Proof. split; vm_compute; reflexivity. Qed.

(** * Further properties of the code *)

(** ** Which error, and when *)

Lemma directionOk_false_iff start stop step :
  step <> 0 ->
  directionOk start stop step = false <->
  (0 < step /\ stop < start) \/ (step < 0 /\ start < stop).
Proof.
  intros Hnz. rewrite directionOk_eq.
  destruct (Z.ltb_spec 0 step).
  - rewrite Z.leb_gt. lia.
  - rewrite Z.leb_gt. lia.
Qed.

(** The four ways [checkArguments] ends. *)
Lemma checkArguments_cases start stop step :
  Int.fits 64 start -> Int.fits 64 stop -> Int.fits 64 step ->
  (step = 0 /\ checkArguments start stop step = Throw ZeroStep) \/
  (step <> 0 /\ directionOk start stop step = false /\
   checkArguments start stop step = Throw DirectionMismatch) \/
  (step <> 0 /\ directionOk start stop step = true /\
   Z.quot (stop - start) step + 1 <= kMaxResultEntries /\
   checkArguments start stop step = Ok (Z.quot (stop - start) step + 1)) \/
  (step <> 0 /\ directionOk start stop step = true /\
   kMaxResultEntries < Z.quot (stop - start) step + 1 /\
   checkArguments start stop step = Throw ResultTooLarge).
Proof.
  intros Hstart Hstop Hstep.
  destruct (Z.eq_dec step 0) as [->|Hnz]; [left; now split|].
  destruct (directionOk start stop step) eqn:Hdir.
  - destruct (checkArguments_passed start stop step Hstart Hstop Hstep Hnz Hdir)
      as [_ Heq].
    rewrite Heq.
    destruct (Z.leb_spec (Z.quot (stop - start) step + 1) kMaxResultEntries).
    + right. right. left. repeat split; assumption.
    + right. right. right. repeat split; assumption.
  - right. left. split; [assumption|]. split; [reflexivity|].
    unfold checkArguments. destruct (Z.eqb_spec step 0); [contradiction|].
    now rewrite Hdir.
Qed.

(** X1.  The checks of [checkArguments] are tried in order and each has
    its own error: [ZeroStep] exactly for a step of 0,
    [DirectionMismatch] exactly for a nonzero step that points away from
    stop, [ResultTooLarge] exactly when both pass and the count is above
    10,000; [checkArguments] never raises [InvalidDateStepUnit]. *)
Theorem checkArguments_error_iff (start stop step : Z) :
  Int.fits 64 start -> Int.fits 64 stop -> Int.fits 64 step ->
  (checkArguments start stop step = Throw ZeroStep <-> step = 0) /\
  (checkArguments start stop step = Throw DirectionMismatch <->
   (0 < step /\ stop < start) \/ (step < 0 /\ start < stop)) /\
  (checkArguments start stop step = Throw ResultTooLarge <->
   step <> 0 /\ directionOk start stop step = true /\
   kMaxResultEntries < Z.quot (stop - start) step + 1) /\
  checkArguments start stop step <> Throw InvalidDateStepUnit.
Proof.
  intros Hstart Hstop Hstep.
  destruct (checkArguments_cases start stop step Hstart Hstop Hstep)
    as [(Hz & ->)|[(Hnz & Hdir & ->)|[(Hnz & Hdir & Hle & ->)|(Hnz & Hdir & Hgt & ->)]]].
  - subst step. split; [tauto|]. split; [|split; [|discriminate]].
    + split; [discriminate | lia].
    + split; [discriminate | tauto].
  - pose proof (directionOk_false_iff start stop step Hnz) as Hf.
    split; [split; [discriminate | contradiction]|].
    split; [tauto|]. split; [|discriminate].
    split; [discriminate | intros (_ & H & _); congruence].
  - assert (Hf : ~ ((0 < step /\ stop < start) \/ (step < 0 /\ start < stop))).
    { rewrite <- (directionOk_false_iff start stop step Hnz). congruence. }
    split; [split; [discriminate | contradiction]|].
    split; [split; [discriminate | contradiction]|].
    split; [|discriminate].
    split; [discriminate | intros (_ & _ & H); lia].
  - assert (Hf : ~ ((0 < step /\ stop < start) \/ (step < 0 /\ start < stop))).
    { rewrite <- (directionOk_false_iff start stop step Hnz). congruence. }
    split; [split; [discriminate | contradiction]|].
    split; [split; [discriminate | contradiction]|].
    split; [|discriminate]. tauto.
Qed.

Lemma checkArguments_error_iff_witness :
  checkArguments 1 10 (-1) <> Throw InvalidDateStepUnit.
Proof.
  refine (proj2 (proj2 (proj2 (checkArguments_error_iff 1 10 (-1) _ _ _))));
    fits_now.
Defined.

(** X2.  Validation succeeds exactly when the step is not 0, points
    towards stop, and stop is less than 10,000 steps away from start;
    the count is then the number of whole steps between them plus one. *)
Theorem checkArguments_succeeds_iff (start stop step : Z) :
  Int.fits 64 start -> Int.fits 64 stop -> Int.fits 64 step ->
  ((exists count, checkArguments start stop step = Ok count) <->
   step <> 0 /\ directionOk start stop step = true /\
   Z.abs (stop - start) < kMaxResultEntries * Z.abs step) /\
  (forall count, checkArguments start stop step = Ok count ->
     count = Z.abs (stop - start) / Z.abs step + 1).
Proof.
  intros Hstart Hstop Hstep.
  assert (Hgap : step <> 0 -> directionOk start stop step = true ->
            0 <= Z.quot (stop - start) step /\
            (Z.quot (stop - start) step + 1 <= kMaxResultEntries <->
             Z.abs (stop - start) < kMaxResultEntries * Z.abs step)).
  { intros Hnz Hdir.
    pose proof (quot_nonneg start stop step Hnz Hdir) as Hq.
    destruct (last_gap start stop step Hnz Hdir) as [Hp Hn].
    split; [exact Hq|]. unfold kMaxResultEntries.
    set (q := Z.quot (stop - start) step) in *. clearbody q.
    destruct (Z.lt_total 0 step) as [Hs|[Hs|Hs]]; [| congruence |].
    - specialize (Hp Hs). nia.
    - specialize (Hn Hs). nia. }
  split.
  - destruct (checkArguments_cases start stop step Hstart Hstop Hstep)
      as [(Hz & ->)|[(Hnz & Hdir & ->)|[(Hnz & Hdir & Hle & ->)|(Hnz & Hdir & Hgt & ->)]]].
    + split; [intros [count H]; discriminate H | tauto].
    + split; [intros [count H]; discriminate H | intros (_ & H & _); congruence].
    + split; [|intros _; eexists; reflexivity].
      intros _. split; [assumption|]. split; [assumption|].
      now apply (Hgap Hnz Hdir).
    + split; [intros [count H]; discriminate H|].
      intros (_ & _ & Hlt). apply (Hgap Hnz Hdir) in Hlt. lia.
  - intros count Hok.
    destruct (checkArguments_Ok_inv _ _ _ _ Hstart Hstop Hstep Hok)
      as (Hnz & Hdir & -> & _).
    destruct (Hgap Hnz Hdir) as [Hq _]. f_equal.
    rewrite <- Z.quot_div_nonneg by lia.
    rewrite Z.quot_abs by assumption. lia.
Qed.

Lemma checkArguments_succeeds_iff_witness :
  exists count, checkArguments 5 1 (-2) = Ok count.
Proof.
  refine (proj2 (proj1 (checkArguments_succeeds_iff 5 1 (-2) _ _ _)) _);
    first [fits_now | (repeat split; first [lia | reflexivity])].
Defined.

(** The size of a row without a step column. *)
Lemma rowSize_default (start stop : Z) (row : nat) (isDate : bool) :
  Int.fits 64 start -> Int.fits 64 stop ->
  rowSize start stop None row isDate =
    (if Z.abs (stop - start) <? kMaxResultEntries
     then Ok (Z.abs (stop - start) + 1)
     else Throw ResultTooLarge).
Proof.
  intros Hstart Hstop. unfold rowSize. rewrite getStep_default.
  cbn [bindChecked].
  set (step := if start <=? stop then 1 else -1).
  assert (Hfit : Int.fits 64 step)
    by (subst step; rewrite fits64_iff; destruct (start <=? stop); lia).
  assert (Hq : Z.quot (stop - start) step = Z.abs (stop - start)).
  { subst step. destruct (Z.leb_spec start stop).
    - rewrite Z.quot_1_r. lia.
    - change (-1) with (- (1)). rewrite Z.quot_opp_r, Z.quot_1_r by lia. lia. }
  destruct (checkArguments_cases start stop step Hstart Hstop Hfit)
    as [(Hz & _)|[(Hnz & Hdir & _)|[(Hnz & Hdir & Hle & ->)|(Hnz & Hdir & Hgt & ->)]]].
  - subst step. destruct (start <=? stop); discriminate.
  - apply (directionOk_false_iff start stop step Hnz) in Hdir.
    subst step. destruct (Z.leb_spec start stop); lia.
  - rewrite Hq in *.
    destruct (Z.ltb_spec (Z.abs (stop - start)) kMaxResultEntries);
      [reflexivity | lia].
  - rewrite Hq in *.
    destruct (Z.ltb_spec (Z.abs (stop - start)) kMaxResultEntries);
      [lia | reflexivity].
Qed.

(** X3.  Without a step column a row never fails for its step or its
    direction: its size is the distance from start to stop plus one when
    that distance is below 10,000, and [ResultTooLarge] is raised
    otherwise; the last element is exactly stop. *)
Theorem default_step_sequence (start stop : Z) (row : nat) (isDate : bool) :
  Int.fits 64 start -> Int.fits 64 stop ->
  rowSize start stop None row isDate =
    (if Z.abs (stop - start) <? kMaxResultEntries
     then Ok (Z.abs (stop - start) + 1)
     else Throw ResultTooLarge) /\
  (forall step count,
     getStep start stop None row isDate = Ok step ->
     rowSize start stop None row isDate = Ok count ->
     start + step * (count - 1) = stop).
Proof.
  intros Hstart Hstop.
  pose proof (rowSize_default start stop row isDate Hstart Hstop) as Heq.
  split; [exact Heq|].
  intros step count Hstep Hok. rewrite getStep_default in Hstep.
  injection Hstep as <-. rewrite Heq in Hok.
  destruct (Z.abs (stop - start) <? kMaxResultEntries); [|discriminate].
  injection Hok as <-. destruct (Z.leb_spec start stop); lia.
Qed.

Lemma default_step_sequence_witness :
  rowSize 10 1 None 0 false = Ok 10.
Proof.
  refine (proj1 (default_step_sequence 10 1 0%nat false _ _)); fits_now.
Defined.

(** [getStep] raises nothing but [InvalidDateStepUnit], and only for a
    Date row with a supplied step that is not a whole number of days. *)
Lemma getStep_throws_iff (start stop : Z)
    (stepVector : option (DecodedVector Z)) (row : nat) (isDate : bool)
    (e : UserError) :
  getStep start stop stepVector row isDate = Throw e <->
  e = InvalidDateStepUnit /\ isDate = true /\
  exists sv, stepVector = Some sv /\
             Z.rem (valueAt sv row) kMillisInDay <> 0.
Proof.
  unfold getStep. destruct stepVector as [sv|].
  - destruct isDate; cbn [negb].
    + destruct (Z.eqb_spec (Z.rem (valueAt sv row) kMillisInDay) 0) as [Hz|Hnz];
        cbn [negb].
      * split; [discriminate|]. intros (_ & _ & sv' & [= <-] & H). contradiction.
      * split.
        -- intros [= <-]. split; [reflexivity|]. split; [reflexivity|].
           exists sv. now split.
        -- intros (-> & _ & _). reflexivity.
    + split; [discriminate | intros (_ & H & _); discriminate H].
  - split; [discriminate | intros (_ & _ & sv & H & _); discriminate H].
Qed.

(** The step of a Date row with a supplied step. *)
Lemma getStep_date start stop (sv : DecodedVector Z) row :
  Int.fits 64 (valueAt sv row) ->
  (Z.rem (valueAt sv row) kMillisInDay <> 0 ->
   getStep start stop (Some sv) row true = Throw InvalidDateStepUnit) /\
  (Z.rem (valueAt sv row) kMillisInDay = 0 ->
   getStep start stop (Some sv) row true =
     Ok (Z.quot (valueAt sv row) kMillisInDay) /\
   Z.quot (valueAt sv row) kMillisInDay * kMillisInDay = valueAt sv row).
Proof.
  intros Hfit. unfold getStep. cbn [negb]. split.
  - intros H.
    destruct (Z.eqb_spec (Z.rem (valueAt sv row) kMillisInDay) 0);
      [contradiction | reflexivity].
  - intros H. rewrite H. cbn [Z.eqb negb].
    assert (Hk : kMillisInDay <> 0) by discriminate.
    pose proof (quot_abs_le (valueAt sv row) kMillisInDay Hk) as Hq.
    pose proof (Z.quot_rem' (valueAt sv row) kMillisInDay) as Hqr.
    rewrite H in Hqr. rewrite fits64_iff in Hfit.
    set (q := Z.quot (valueAt sv row) kMillisInDay) in *. clearbody q.
    clear H Hk. unfold kMillisInDay in *.
    split; [f_equal; apply int64_fits; rewrite fits64_iff; lia | lia].
Qed.

(** X4.  The error of a row in terms of its values.  It is
    [InvalidDateStepUnit] exactly for a Date row whose supplied step is
    not a whole number of days; [ZeroStep] exactly for a supplied step of
    0; [DirectionMismatch] exactly for a supplied step, in whole days for
    a Date row, whose sign goes against the direction from start to
    stop.  A row without a step column gets none of the three. *)
Theorem row_error_iff (start stop : Z) (stepVector : option (DecodedVector Z))
    (row : nat) (isDate : bool) :
  Int.fits 64 start -> Int.fits 64 stop ->
  (forall sv, stepVector = Some sv -> Int.fits 64 (valueAt sv row)) ->
  (rowSize start stop stepVector row isDate = Throw InvalidDateStepUnit <->
   isDate = true /\
   exists sv, stepVector = Some sv /\
              Z.rem (valueAt sv row) kMillisInDay <> 0) /\
  (rowSize start stop stepVector row isDate = Throw ZeroStep <->
   exists sv, stepVector = Some sv /\ valueAt sv row = 0) /\
  (rowSize start stop stepVector row isDate = Throw DirectionMismatch <->
   exists sv, stepVector = Some sv /\
     (isDate = true -> Z.rem (valueAt sv row) kMillisInDay = 0) /\
     ((0 < valueAt sv row /\ stop < start) \/
      (valueAt sv row < 0 /\ start < stop))).
Proof.
  intros Hstart Hstop Hsv. destruct stepVector as [sv|].
  - specialize (Hsv sv eq_refl). set (raw := valueAt sv row) in *.
    assert (Hvia : forall step,
              Int.fits 64 step -> (step = 0 <-> raw = 0) ->
              (0 < step <-> 0 < raw) ->
              (isDate = true -> Z.rem raw kMillisInDay = 0) ->
              rowSize start stop (Some sv) row isDate =
                checkArguments start stop step ->
              (rowSize start stop (Some sv) row isDate = Throw InvalidDateStepUnit <->
               isDate = true /\
               exists sv', Some sv = Some sv' /\
                           Z.rem (valueAt sv' row) kMillisInDay <> 0) /\
              (rowSize start stop (Some sv) row isDate = Throw ZeroStep <->
               exists sv', Some sv = Some sv' /\ valueAt sv' row = 0) /\
              (rowSize start stop (Some sv) row isDate = Throw DirectionMismatch <->
               exists sv', Some sv = Some sv' /\
                 (isDate = true -> Z.rem (valueAt sv' row) kMillisInDay = 0) /\
                 ((0 < valueAt sv' row /\ stop < start) \/
                  (valueAt sv' row < 0 /\ start < stop)))).
    { intros step Hfit Hzero Hpos Hdiv ->.
      assert (Hz : checkArguments start stop step = Throw ZeroStep <->
                   step = 0).
      { destruct (checkArguments_cases start stop step Hstart Hstop Hfit)
          as [(Hs & ->)|[(Hs & _ & ->)|[(Hs & _ & _ & ->)|(Hs & _ & _ & ->)]]];
          (split; [first [discriminate | tauto] | first [tauto | contradiction]]). }
      assert (Hd : checkArguments start stop step = Throw DirectionMismatch <->
                   (0 < step /\ stop < start) \/ (step < 0 /\ start < stop)).
      { destruct (checkArguments_cases start stop step Hstart Hstop Hfit)
          as [(Hs & ->)|[(Hs & Hdir & ->)|[(Hs & Hdir & _ & ->)|(Hs & Hdir & _ & ->)]]].
        - split; [discriminate | lia].
        - rewrite <- (directionOk_false_iff start stop step Hs). tauto.
        - rewrite <- (directionOk_false_iff start stop step Hs).
          split; [discriminate | congruence].
        - rewrite <- (directionOk_false_iff start stop step Hs).
          split; [discriminate | congruence]. }
      assert (Hi : checkArguments start stop step <> Throw InvalidDateStepUnit).
      { destruct (checkArguments_cases start stop step Hstart Hstop Hfit)
          as [(_ & ->)|[(_ & _ & ->)|[(_ & _ & _ & ->)|(_ & _ & _ & ->)]]];
          discriminate. }
      split; [|split].
      - split; [intros H; contradiction|].
        intros (Hdate & sv' & [= <-] & Hrem). fold raw in Hrem.
        specialize (Hdiv Hdate). contradiction.
      - rewrite Hz, Hzero. split.
        + intros H. exists sv. now split.
        + now intros (sv' & [= <-] & H).
      - rewrite Hd. split.
        + intros H. exists sv. split; [reflexivity|]. split; [exact Hdiv|].
          fold raw. lia.
        + intros (sv' & [= <-] & _ & H). fold raw in H. lia. }
    destruct isDate.
    + destruct (Z.eq_dec (Z.rem raw kMillisInDay) 0) as [Hdiv|Hndiv].
      * assert (Hstep : getStep start stop (Some sv) row true =
                        Ok (Z.quot raw kMillisInDay) /\
                        Z.quot raw kMillisInDay * kMillisInDay = raw)
          by (apply (getStep_date start stop sv row Hsv); assumption).
        destruct Hstep as [Hstep Hmul].
        apply (Hvia (Z.quot raw kMillisInDay)).
        -- eapply getStep_fits; [|exact Hstep]. now intros sv' [= <-].
        -- revert Hmul. unfold kMillisInDay.
           generalize (Z.quot raw 86400000). intros q Hmul. lia.
        -- revert Hmul. unfold kMillisInDay.
           generalize (Z.quot raw 86400000). intros q Hmul. lia.
        -- intros _. exact Hdiv.
        -- unfold rowSize. now rewrite Hstep.
      * assert (Hthrow : rowSize start stop (Some sv) row true =
                         Throw InvalidDateStepUnit).
        { unfold rowSize.
          assert (Hg : getStep start stop (Some sv) row true =
                       Throw InvalidDateStepUnit)
            by (apply (getStep_date start stop sv row Hsv); assumption).
          now rewrite Hg. }
        rewrite Hthrow. split; [|split].
        -- split; [|reflexivity]. intros _. split; [reflexivity|].
           exists sv. now split.
        -- split; [discriminate|]. intros (sv' & [= <-] & Hz).
           fold raw in Hz. rewrite Hz in Hndiv. now contradiction Hndiv.
        -- split; [discriminate|]. intros (sv' & [= <-] & Hd & _).
           fold raw in Hd. now specialize (Hd eq_refl).
    + apply (Hvia raw); first [assumption | tauto | discriminate | reflexivity].
  - rewrite (rowSize_default start stop row isDate Hstart Hstop).
    destruct (Z.abs (stop - start) <? kMaxResultEntries);
      (split; [|split]);
      (split; [discriminate|]);
      first [intros (_ & sv & H & _); discriminate H
            | intros (sv & H & _); discriminate H].
Qed.

Lemma row_error_iff_witness :
  rowSize 18262 18263 (Some (columnOf 0 [43200000])) 0 true =
  Throw InvalidDateStepUnit.
Proof.
  refine (proj2 (proj1 (row_error_iff 18262 18263
                          (Some (columnOf 0 [43200000])) 0%nat true _ _ _)) _).
  - fits_now.
  - fits_now.
  - intros sv [= <-]. fits_now.
  - split; [reflexivity|]. exists (columnOf 0 [43200000]).
    split; [reflexivity | cbn; discriminate].
Defined.

(** ** The elements of a row *)

Section Elements.

Context {k : TypeKind} (args : Args k) (row : nat) (step count : Z).

Let start : native k := valueAt (startVector args) row.
Let stop : native k := valueAt (stopVector args) row.

Hypothesis Hwt : wellTyped args.
Hypothesis Hstep : stepOfRow args row = Ok step.
Hypothesis Hchk : checkArguments (toInt64 start) (toInt64 stop) step = Ok count.

(** What validation established for the row. *)
Lemma validated_row :
  Int.fits 64 (toInt64 start) /\ Int.fits 64 (toInt64 stop) /\
  Int.fits 64 step /\ step <> 0 /\ directionOk (toInt64 start) (toInt64 stop) step = true /\
  count = Z.quot (toInt64 stop - toInt64 start) step + 1.
Proof.
  destruct (Hwt row) as (Hstart & Hstop & Hsv).
  pose proof (getStep_fits _ _ _ _ _ _ Hsv Hstep) as Hfit.
  destruct (checkArguments_Ok_inv _ _ _ _ Hstart Hstop Hfit Hchk)
    as (Hnz & Hdir & Hcount & _).
  split; [exact Hstart|]. split; [exact Hstop|]. split; [exact Hfit|].
  split; [exact Hnz|]. split; [exact Hdir | exact Hcount].
Qed.

(** The ordinal of the element the loop writes at index [i]. *)
Lemma written_ordinal i :
  0 <= i < count ->
  toInt64 (add start (mul64 step i)) = toInt64 start + step * i.
Proof.
  intros Hi. destruct validated_row as (Hstart & Hstop & Hfit & Hnz & Hdir & Hcount).
  rewrite toInt64_add. apply add64_mul64.
  apply (progression_fits (toInt64 start) (toInt64 stop));
    first [assumption | lia].
Qed.

(** X5.  The elements of a valid row start at start, never leave the
    range between start and stop, and are strictly increasing for a
    positive step and strictly decreasing for a negative one, so no value
    is written twice. *)
Theorem written_values_ordered :
  toInt64 (add start (mul64 step 0)) = toInt64 start /\
  (forall i, 0 <= i < count ->
     Z.min (toInt64 start) (toInt64 stop)
       <= toInt64 (add start (mul64 step i))
       <= Z.max (toInt64 start) (toInt64 stop)) /\
  (forall i j, 0 <= i < j -> j < count ->
     (0 < step ->
      toInt64 (add start (mul64 step i)) < toInt64 (add start (mul64 step j))) /\
     (step < 0 ->
      toInt64 (add start (mul64 step j)) < toInt64 (add start (mul64 step i)))).
Proof.
  destruct validated_row as (Hstart & Hstop & Hfit & Hnz & Hdir & Hcount).
  pose proof (quot_nonneg _ _ _ Hnz Hdir) as Hq.
  split; [|split].
  - rewrite written_ordinal by lia. lia.
  - intros i Hi. rewrite written_ordinal by assumption.
    destruct (progression_between _ _ _ Hnz Hdir i) as [Hp Hn]; [lia|].
    destruct (Z.lt_total 0 step) as [Hs|[Hs|Hs]]; [| congruence |];
      [specialize (Hp Hs) | specialize (Hn Hs)]; lia.
  - intros i j Hij Hj. rewrite !written_ordinal by lia. split; nia.
Qed.

(** X6.  The last element of a valid row is stop exactly when the step
    divides the distance from start to stop; otherwise the row ends
    before stop. *)
Theorem last_value_is_stop_iff :
  toInt64 (add start (mul64 step (count - 1))) = toInt64 stop <->
  Z.rem (toInt64 stop - toInt64 start) step = 0.
Proof.
  destruct validated_row as (Hstart & Hstop & Hfit & Hnz & Hdir & Hcount).
  pose proof (quot_nonneg _ _ _ Hnz Hdir) as Hq.
  rewrite written_ordinal by lia.
  pose proof (Z.quot_rem' (toInt64 stop - toInt64 start) step) as Hqr.
  replace (count - 1) with (Z.quot (toInt64 stop - toInt64 start) step) by lia.
  lia.
Qed.

End Elements.

Lemma written_values_ordered_witness :
  toInt64 (k := BIGINT) (add (k := BIGINT) 5 (mul64 (-2) 0)) = 5.
Proof.
  refine (proj1 (written_values_ordered
                   (@mkArgs BIGINT (columnOf 0 [5]) (columnOf 0 [1])
                      (Some (columnOf 0 [-2]))) 0%nat (-2) 3 _ eq_refl eq_refl)).
  apply (wellTyped_columnOf (k := BIGINT) 0 [5] 0 [1] (Some (0, [-2])));
    reflexivity.
Defined.

Lemma last_value_is_stop_iff_witness :
  toInt64 (k := BIGINT) (add (k := BIGINT) 1 (mul64 3 (4 - 1))) = 10.
Proof.
  refine (proj2 (last_value_is_stop_iff
                   (@mkArgs BIGINT (columnOf 0 [1]) (columnOf 0 [10])
                      (Some (columnOf 0 [3]))) 0%nat 3 4 _ eq_refl eq_refl) _).
  - apply (wellTyped_columnOf (k := BIGINT) 0 [1] 0 [10] (Some (0, [3])));
      reflexivity.
  - reflexivity.
Defined.

(** ** The fill pass and the bounds of the buffer *)

Lemma store_inside {T} (mem : list T) (idx : Z) (v : T) :
  0 <= idx < Z.of_nat (length mem) ->
  store mem idx v = Some (<[Z.to_nat idx := v]> mem).
Proof. intros H. unfold store. now rewrite bool_decide_eq_true_2. Qed.

Lemma store_outside {T} (mem : list T) (idx : Z) (v : T) :
  ~ 0 <= idx < Z.of_nat (length mem) -> store mem idx v = None.
Proof. intros H. unfold store. now rewrite bool_decide_eq_false_2. Qed.

(** The loop runs into the end of a buffer that is too short for it. *)
Lemma fillFrom_overrun {k} (start : native k) step todo :
  forall (i : Z) (mem : list (native k)) (base : Z),
    0 <= base -> 0 <= i ->
    (0 < todo)%nat ->
    Z.of_nat (length mem) < base + i + Z.of_nat todo ->
    i + Z.of_nat todo <= Int.max_signed 32 ->
    fillFrom todo i mem base start step = None.
Proof.
  induction todo as [|todo IH]; intros i mem base Hbase Hi Htodo Hshort Hmax;
    [lia|].
  cbn [fillFrom].
  destruct (Z.lt_ge_cases (base + i) (Z.of_nat (length mem))) as [Hin|Hout].
  - rewrite store_inside by lia. cbn [mbind option_bind].
    change (Int.max_signed 32) with 2147483647 in Hmax.
    rewrite int32_fits by (rewrite fits32_iff; lia).
    apply IH; rewrite ?length_insert; try lia.
    change (Int.max_signed 32) with 2147483647. lia.
  - rewrite store_outside by lia. reflexivity.
Qed.

(** X7.  The fill pass does no bounds check of its own: run for a row
    with a valid step and [count] elements at index [base], it completes
    exactly when the buffer has [count] slots from [base] on, and it then
    changes those slots and no other; on a shorter buffer it runs past
    the end. *)
Theorem writeToElements_bounds {k : TypeKind} (args : Args k)
    (row : nat) (step count : Z) (mem : list (native k)) (base : nat) :
  stepOfRow args row = Ok step ->
  1 <= count <= Int.max_signed 32 ->
  (Z.of_nat base + count <= Z.of_nat (length mem) ->
   writeToElements mem (Z.of_nat base) (isDateKind k) count
     (startVector args) (stopVector args) (stepVector args) row =
   Some (Ok (take base mem
             ++ progression (valueAt (startVector args) row) step
                  (Z.to_nat count)
             ++ drop (base + Z.to_nat count) mem))) /\
  (Z.of_nat (length mem) < Z.of_nat base + count ->
   writeToElements mem (Z.of_nat base) (isDateKind k) count
     (startVector args) (stopVector args) (stepVector args) row = None).
Proof.
  intros Hstep Hcount. split.
  - intros Hfit.
    pose proof (writeToElements_run args row step count (take base mem)
                  (take (Z.to_nat count) (drop base mem))
                  (drop (base + Z.to_nat count) mem) Hstep) as Hrun.
    rewrite (length_take_le mem base) in Hrun by lia.
    rewrite <- drop_drop, take_drop, take_drop in Hrun.
    rewrite <- drop_drop.
    apply Hrun; [lia|]. rewrite length_take, length_drop. lia.
  - intros Hshort. unfold writeToElements.
    unfold stepOfRow in Hstep. rewrite Hstep.
    rewrite fillFrom_overrun; [reflexivity | lia | lia | lia | lia | lia].
Qed.

Lemma writeToElements_bounds_witness :
  writeToElements (k := BIGINT) [0; 0] 0 false 3
    (columnOf 0 [5]) (columnOf 0 [1]) (Some (columnOf 0 [-2])) 0 = None.
Proof.
  refine (proj2 (writeToElements_bounds
                   (@mkArgs BIGINT (columnOf 0 [5]) (columnOf 0 [1])
                      (Some (columnOf 0 [-2]))) 0%nat (-2) 3 [0; 0] 0%nat
                   eq_refl _) _).
  - change (Int.max_signed 32) with 2147483647. lia.
  - cbn. lia.
Defined.

(** ** The errors and the sizes of a batch *)

Section Batch.

Context {k : TypeKind} (args : Args k).

Lemma elem_of_errorsFrom bits : forall (row0 row : nat) (e : UserError),
  (row, e) ∈ errorsFrom args row0 bits <->
  exists i : nat, row = (row0 + i)%nat /\ bits !! i = Some true /\
                  validateRow args row = Throw e.
Proof.
  induction bits as [|b bits IH]; intros row0 row e; cbn [errorsFrom].
  - split; [intros H; now apply elem_of_nil in H | now intros (i & _ & H & _)].
  - rewrite elem_of_app, IH. split.
    + intros [Hhead|(i & -> & Hi & Hv)].
      * destruct b; [|now apply elem_of_nil in Hhead].
        destruct (validateRow args row0) as [count|e0] eqn:Hv0;
          [now apply elem_of_nil in Hhead|].
        apply list_elem_of_singleton in Hhead. injection Hhead as -> ->.
        exists 0%nat. rewrite Nat.add_0_r. now split.
      * exists (S i). split; [lia|]. split; [exact Hi|].
        now replace (row0 + S i)%nat with (S row0 + i)%nat by lia.
    + intros ([|i] & -> & Hi & Hv).
      * left. cbn in Hi. injection Hi as ->. rewrite Nat.add_0_r in *.
        rewrite Hv. now apply list_elem_of_singleton.
      * right. exists i. split; [lia|]. split; [exact Hi|].
        now replace (S row0 + i)%nat with (row0 + S i)%nat by lia.
Qed.

Lemma errorsFrom_sorted bits : forall row0 : nat,
  StronglySorted lt (errorsFrom args row0 bits).*1.
Proof.
  induction bits as [|b bits IH]; intros row0; cbn [errorsFrom].
  - constructor.
  - assert (Htail : Forall (lt row0) (errorsFrom args (S row0) bits).*1).
    { apply List.Forall_forall. intros row Hin.
      apply list_elem_of_In, list_elem_of_fmap in Hin as ([row' e] & -> & Hin).
      apply elem_of_errorsFrom in Hin as (i & -> & _). cbn. lia. }
    destruct b; [|exact (IH (S row0))].
    destruct (validateRow args row0); [exact (IH (S row0))|].
    cbn. constructor; [exact (IH (S row0)) | exact Htail].
Qed.

Lemma sizeOfRow_zero_iff row :
  wellTyped args ->
  sizeOfRow args row = 0 <-> exists e, validateRow args row = Throw e.
Proof.
  intros Hwt. split.
  - intros Hz. unfold sizeOfRow in Hz.
    destruct (validateRow args row) as [count|e] eqn:Hv; [|now exists e].
    assert (Hnz : sizeOfRow args row <> 0 -> False).
    { intros Hnz. unfold sizeOfRow in Hnz. rewrite Hv in Hnz. lia. }
    subst count. exfalso.
    destruct (Hwt row) as (Hstart & Hstop & Hsv).
    rewrite validateRow_eq in Hv.
    destruct (stepOfRow args row) as [step|e] eqn:Hstep; [|discriminate].
    cbn [bindChecked] in Hv.
    pose proof (getStep_fits _ _ _ _ _ _ Hsv Hstep) as Hfit.
    destruct (checkArguments_Ok_inv _ _ _ _ Hstart Hstop Hfit Hv)
      as (_ & _ & _ & Hb). lia.
  - intros [e Hv]. unfold sizeOfRow. now rewrite Hv.
Qed.

End Batch.

(** X8.  [apply] keeps the errors recorded before the call and adds one
    error for each selected row that fails validation, and no other: an
    unselected row and a valid row get none, no row gets two, and the new
    errors come in ascending row order. *)
Theorem apply_errors {k : TypeKind} (pool : nat -> native k)
    (rows : SelectivityVector) (args : Args k) (context : EvalCtx) :
  wellTyped args ->
  totalSize rows args <= Int.max_signed 32 ->
  exists (new : EvalCtx) (out : ArrayVector (native k)),
    apply pool rows args context = Some (context ++ new, out) /\
    (forall (row : nat) (e : UserError),
       (row, e) ∈ new <->
       rows !! row = Some true /\ validateRow args row = Throw e) /\
    StronglySorted lt new.*1.
Proof.
  intros Hwt Hmax. rewrite (apply_eq pool rows args context Hwt Hmax).
  exists (errorsFrom args 0 rows). eexists. split; [reflexivity|]. split.
  - intros row e. rewrite elem_of_errorsFrom. cbn [Nat.add]. split.
    + intros (i & -> & Hi & Hv). now split.
    + intros [Hi Hv]. exists row. now split.
  - apply errorsFrom_sorted.
Qed.

Lemma apply_errors_witness :
  exists (new : EvalCtx) (out : ArrayVector Z),
    apply (k := BIGINT) (fun _ => 777) [true; false; true; true; true]
      (@mkArgs BIGINT (columnOf 0 [1; 9; 5; 3; 1]) (columnOf 0 [5; 9; 1; 3; 10])
         (Some (columnOf 0 [1; 1; -2; 0; -1]))) [(7%nat, ZeroStep)] =
    Some ([(7%nat, ZeroStep)] ++ new, out) /\
    StronglySorted lt new.*1.
Proof.
  destruct (apply_errors (k := BIGINT) (fun _ => 777)
              [true; false; true; true; true]
              (@mkArgs BIGINT (columnOf 0 [1; 9; 5; 3; 1])
                 (columnOf 0 [5; 9; 1; 3; 10])
                 (Some (columnOf 0 [1; 1; -2; 0; -1]))) [(7%nat, ZeroStep)])
    as (new & out & Happly & _ & Hsorted).
  - apply (wellTyped_columnOf (k := BIGINT) 0 [1; 9; 5; 3; 1] 0 [5; 9; 1; 3; 10]
             (Some (0, [1; 1; -2; 0; -1]))); reflexivity.
  - vm_compute. discriminate.
  - exists new, out. split; assumption.
Defined.

(** X9.  In the result of [apply] a selected row has size 0 exactly when
    its validation failed, so a valid row never gets an empty array and a
    failed row never gets elements; every size lies between 0 and 10,000,
    and the element buffer has at most 10,000 slots per row of the
    batch. *)
Theorem apply_sizes {k : TypeKind} (pool : nat -> native k)
    (rows : SelectivityVector) (args : Args k) (context : EvalCtx) :
  wellTyped args ->
  totalSize rows args <= Int.max_signed 32 ->
  exists (context' : EvalCtx) (out : ArrayVector (native k)),
    apply pool rows args context = Some (context', out) /\
    (forall row : nat, rows !! row = Some true ->
       (sizes out !! row = Some 0 <-> exists e, validateRow args row = Throw e) /\
       (forall count, validateRow args row = Ok count ->
          sizes out !! row = Some count /\ 1 <= count)) /\
    (forall (row : nat) (size : Z),
       sizes out !! row = Some size -> 0 <= size <= kMaxResultEntries) /\
    Z.of_nat (length (elements out))
      <= kMaxResultEntries * Z.of_nat (length rows).
Proof.
  intros Hwt Hmax. rewrite (apply_eq pool rows args context Hwt Hmax).
  eexists _, _. split; [reflexivity|]. cbn [sizes elements].
  split; [|split].
  - intros row Hrow.
    rewrite (lookup_sizesFrom args rows 0%nat row true Hrow). cbn [Nat.add].
    pose proof (sizeOfRow_zero_iff args row Hwt) as Hzero.
    split.
    + rewrite <- Hzero. split; [now intros [= ->] | now intros ->].
    + intros count Hv.
      assert (Hsize : sizeOfRow args row = count)
        by (unfold sizeOfRow; now rewrite Hv).
      split; [now rewrite Hsize|].
      pose proof (sizeOfRow_bounds args row Hwt) as Hb.
      assert (count <> 0); [|lia].
      intros ->. apply Hzero in Hsize as [e He]. congruence.
  - intros row size Hsize.
    pose proof (sizesFrom_Forall args Hwt rows 0%nat) as Hnn.
    destruct (rows !! row) as [b|] eqn:Hrow.
    + rewrite (lookup_sizesFrom args rows 0%nat row b Hrow) in Hsize.
      injection Hsize as <-. cbn [Nat.add].
      pose proof (sizeOfRow_bounds args row Hwt) as Hb.
      unfold kMaxResultEntries in *. destruct b; lia.
    + apply lookup_lt_Some in Hsize. rewrite length_sizesFrom in Hsize.
      apply lookup_ge_None in Hrow. lia.
  - rewrite length_slicesFrom by assumption.
    pose proof (sizesFrom_le args rows Hwt 0%nat). lia.
Qed.

Lemma apply_sizes_witness :
  exists (context' : EvalCtx) (out : ArrayVector Z),
    apply (k := BIGINT) (fun _ => 777) [true; false; true; true; true]
      (@mkArgs BIGINT (columnOf 0 [1; 9; 5; 3; 1]) (columnOf 0 [5; 9; 1; 3; 10])
         (Some (columnOf 0 [1; 1; -2; 0; -1]))) [] = Some (context', out) /\
    Z.of_nat (length (elements out)) <= kMaxResultEntries * 5.
Proof.
  destruct (apply_sizes (k := BIGINT) (fun _ => 777)
              [true; false; true; true; true]
              (@mkArgs BIGINT (columnOf 0 [1; 9; 5; 3; 1])
                 (columnOf 0 [5; 9; 1; 3; 10])
                 (Some (columnOf 0 [1; 1; -2; 0; -1]))) [])
    as (context' & out & Happly & _ & _ & Hlen).
  - apply (wellTyped_columnOf (k := BIGINT) 0 [1; 9; 5; 3; 1] 0 [5; 9; 1; 3; 10]
             (Some (0, [1; 1; -2; 0; -1]))); reflexivity.
  - vm_compute. discriminate.
  - exists context', out. split; assumption.
Defined.

(** ** Unselected rows *)

Lemma applyFrom_ext {St : Type}
    (f g : nat -> St -> option (St * option UserError)) bits :
  forall (row0 : nat) (context : EvalCtx) (s : St),
    (forall i : nat, bits !! i = Some true ->
       forall s', f (row0 + i)%nat s' = g (row0 + i)%nat s') ->
    applyFrom f row0 bits context s = applyFrom g row0 bits context s.
Proof.
  induction bits as [|b bits IH]; intros row0 context s Hfg; [reflexivity|].
  cbn [applyFrom].
  assert (Hrest : forall c s0,
            applyFrom f (S row0) bits c s0 = applyFrom g (S row0) bits c s0).
  { intros c s0. apply IH. intros i Hi s'.
    replace (S row0 + i)%nat with (row0 + S i)%nat by lia.
    now apply Hfg. }
  destruct b; [|apply Hrest].
  pose proof (Hfg 0%nat eq_refl s) as Hhead. rewrite Nat.add_0_r in Hhead.
  rewrite Hhead. destruct (g row0 s) as [[s' thrown]|]; [|reflexivity].
  cbn [mbind option_bind]. apply Hrest.
Qed.

Lemma getStep_stepAt {k} (args args' : Args k) start stop row isDate :
  stepAt args row = stepAt args' row ->
  getStep start stop (stepVector args) row isDate =
  getStep start stop (stepVector args') row isDate.
Proof.
  unfold stepAt, getStep.
  destruct (stepVector args), (stepVector args'); intros H;
    first [discriminate H | reflexivity | idtac].
  injection H as ->. reflexivity.
Qed.

(** X10.  [apply] reads the columns at the selected rows only: two calls
    whose columns hold the same values in the selected rows return the
    same errors and the same result, whatever the unselected rows hold. *)
Theorem apply_ignores_unselected {k : TypeKind} (pool : nat -> native k)
    (rows : SelectivityVector) (args args' : Args k) (context : EvalCtx) :
  agreeOn rows args args' ->
  apply pool rows args context = apply pool rows args' context.
Proof.
  intros Hagree. unfold apply, applyToSelectedNoThrow.
  assert (Hpass1 : forall c s,
            applyFrom (sizeRow args (isDateKind k)) 0 rows c s =
            applyFrom (sizeRow args' (isDateKind k)) 0 rows c s).
  { intros c s. apply applyFrom_ext. intros i Hi s'. cbn [Nat.add].
    destruct (Hagree i Hi) as (Hstart & Hstop & Hstep).
    unfold sizeRow. rewrite Hstart, Hstop.
    now rewrite (getStep_stepAt args args' _ _ i _ Hstep). }
  assert (Hpass2 : forall sz c s,
            applyFrom (fillRow args (isDateKind k) sz) 0 rows c s =
            applyFrom (fillRow args' (isDateKind k) sz) 0 rows c s).
  { intros sz c s. apply applyFrom_ext. intros i Hi s'. cbn [Nat.add].
    destruct (Hagree i Hi) as (Hstart & Hstop & Hstep).
    unfold fillRow, writeToElements. rewrite Hstart, Hstop.
    now rewrite (getStep_stepAt args args' _ _ i _ Hstep). }
  rewrite Hpass1.
  destruct (applyFrom (sizeRow args' (isDateKind k)) 0 rows context _)
    as [[context1 pass1]|]; [|reflexivity].
  cbn [mbind option_bind]. now rewrite Hpass2.
Qed.

Lemma apply_ignores_unselected_witness :
  apply (k := BIGINT) (fun _ => 0) [true; false]
    (@mkArgs BIGINT (columnOf 0 [1; 9]) (columnOf 0 [3; 9])
       (Some (columnOf 0 [1; 0]))) [] =
  apply (k := BIGINT) (fun _ => 0) [true; false]
    (@mkArgs BIGINT (columnOf 0 [1; 2 ^ 62]) (columnOf 0 [3; - 2 ^ 62])
       (Some (columnOf 0 [1; 5]))) [].
Proof.
  apply (apply_ignores_unselected (k := BIGINT)).
  intros [|[|row]] Hrow; first [discriminate Hrow | now repeat split].
Defined.

(** ** The array of a row *)

Lemma slice_of_slicesFrom {k} (args : Args k) (Hwt : wellTyped args) bits :
  forall (row i : nat) (b : bool),
    bits !! i = Some b ->
    take (Z.to_nat (if b then sizeOfRow args (row + i) else 0))
      (drop (Z.to_nat (sumZ (take i (sizesFrom args row bits))))
         (slicesFrom args row bits)) =
    if b then sliceOfRow args (row + i) else [].
Proof.
  induction bits as [|b' bits IH]; intros row i b Hb; [discriminate|].
  cbn [slicesFrom sizesFrom].
  set (head := if b' then sliceOfRow args row else []).
  assert (Hhead : Z.of_nat (length head) = if b' then sizeOfRow args row else 0).
  { subst head. destruct b'; [now apply length_sliceOfRow | reflexivity]. }
  destruct i as [|i]; cbn [take].
  - injection Hb as ->. rewrite Nat.add_0_r. cbn [sumZ foldr Z.to_nat drop].
    apply take_app_length'. rewrite <- Hhead. apply Nat2Z.id.
  - cbn in Hb. rewrite sumZ_cons.
    pose proof (sumZ_take_le (sizesFrom args (S row) bits) i
                  (sizesFrom_Forall args Hwt bits (S row))) as Hnn.
    replace (Z.to_nat ((if b' then sizeOfRow args row else 0)
                       + sumZ (take i (sizesFrom args (S row) bits))))
      with (length head
            + Z.to_nat (sumZ (take i (sizesFrom args (S row) bits))))%nat
      by lia.
    rewrite drop_app_add.
    replace (row + S i)%nat with (S row + i)%nat by lia.
    now apply IH.
Qed.

(** X11.  Read back through its offset and size, the array of a row in
    the result of [apply] is the progression of the row, [count] elements
    from start on in steps of [step], when the row is selected and valid;
    it is empty when the row is selected and fails or is not selected;
    beyond the batch there is no row. *)
Theorem apply_row_array {k : TypeKind} (pool : nat -> native k)
    (rows : SelectivityVector) (args : Args k) (context : EvalCtx) :
  wellTyped args ->
  totalSize rows args <= Int.max_signed 32 ->
  exists (context' : EvalCtx) (out : ArrayVector (native k)),
    apply pool rows args context = Some (context', out) /\
    (forall (row : nat) (step count : Z),
       rows !! row = Some true ->
       stepOfRow args row = Ok step ->
       validateRow args row = Ok count ->
       rowArray out row =
         Some (progression (valueAt (startVector args) row) step
                 (Z.to_nat count))) /\
    (forall (row : nat) (e : UserError),
       rows !! row = Some true -> validateRow args row = Throw e ->
       rowArray out row = Some []) /\
    (forall row : nat, rows !! row = Some false -> rowArray out row = Some []) /\
    (forall row : nat, (length rows <= row)%nat -> rowArray out row = None).
Proof.
  intros Hwt Hmax. rewrite (apply_eq pool rows args context Hwt Hmax).
  eexists _, _. split; [reflexivity|].
  assert (Hrow : forall (row : nat) (b : bool),
            rows !! row = Some b ->
            rowArray (mkArrayVector (length rows)
                        (offsetsOf 0 (sizesFrom args 0 rows))
                        (sizesFrom args 0 rows) (slicesFrom args 0 rows)) row =
            Some (if b then sliceOfRow args row else [])).
  { intros row b Hb. unfold rowArray. cbn [offsets sizes elements].
    pose proof (lookup_sizesFrom args rows 0%nat row b Hb) as Hsize.
    cbn [Nat.add] in Hsize.
    rewrite (lookup_offsetsOf _ 0 row _ Hsize), Hsize.
    cbn [mbind option_bind]. f_equal.
    pose proof (slice_of_slicesFrom args Hwt rows 0%nat row b Hb) as Hslice.
    cbn [Nat.add] in Hslice.
    destruct (Z.eqb_spec (if b then sizeOfRow args row else 0) 0) as [Hz|Hnz].
    - rewrite Hz in *. cbn [Z.to_nat take] in *. exact Hslice.
    - rewrite Z.add_0_l. exact Hslice. }
  split; [|split; [|split]].
  - intros row step count Hsel Hstep Hv. rewrite (Hrow row true Hsel).
    unfold sliceOfRow, sizeOfRow. now rewrite Hstep, Hv.
  - intros row e Hsel Hv. rewrite (Hrow row true Hsel).
    unfold sliceOfRow, sizeOfRow. rewrite Hv.
    now destruct (stepOfRow args row).
  - intros row Hsel. now rewrite (Hrow row false Hsel).
  - intros row Hge. unfold rowArray. cbn [offsets].
    rewrite (proj2 (lookup_ge_None (offsetsOf 0 (sizesFrom args 0 rows)) row));
      [reflexivity|].
    now rewrite length_offsetsOf, length_sizesFrom.
Qed.

Lemma apply_row_array_witness :
  exists (context' : EvalCtx) (out : ArrayVector Z),
    apply (k := BIGINT) (fun _ => 777) [true; false; true; true; true]
      (@mkArgs BIGINT (columnOf 0 [1; 9; 5; 3; 1]) (columnOf 0 [5; 9; 1; 3; 10])
         (Some (columnOf 0 [1; 1; -2; 0; -1]))) [] = Some (context', out) /\
    rowArray out 2 = Some [5; 3; 1].
Proof.
  destruct (apply_row_array (k := BIGINT) (fun _ => 777)
              [true; false; true; true; true]
              (@mkArgs BIGINT (columnOf 0 [1; 9; 5; 3; 1])
                 (columnOf 0 [5; 9; 1; 3; 10])
                 (Some (columnOf 0 [1; 1; -2; 0; -1]))) [])
    as (context' & out & Happly & Hvalid & _).
  - apply (wellTyped_columnOf (k := BIGINT) 0 [1; 9; 5; 3; 1] 0 [5; 9; 1; 3; 10]
             (Some (0, [1; 1; -2; 0; -1]))); reflexivity.
  - vm_compute. discriminate.
  - exists context', out. split; [exact Happly|].
    exact (Hvalid 2%nat (-2) 3 eq_refl eq_refl eq_refl).
Defined.

(** ** Registration *)

(** X12.  Every signature [signatures] registers is served by [create]:
    its start and stop have one and the same type, of a kind for which
    [create] returns the kernel of that kind and never reaches
    [VELOX_UNREACHABLE]; it returns arrays of that type; and its step,
    when it has one, is a bigint for bigint rows and a day-to-second
    interval for dates and timestamps.  Timestamps have no form without a
    step.  [kindOf] is the kind the host gives a type name. *)
Theorem signatures_are_handled (kindOf : string -> InputKind) :
  kindOf "bigint" = KnownKind BIGINT ->
  kindOf "date" = KnownKind DATE ->
  kindOf "timestamp" = KnownKind TIMESTAMP ->
  Forall (fun sig : FunctionSignature =>
            exists (k : TypeKind) (step : list string),
              argumentTypes sig = typeName k :: typeName k :: step /\
              create (kindOf (typeName k)) = Some k /\
              returnType sig =
                String.append "array(" (String.append (typeName k) ")") /\
              (step = [stepTypeName k] \/ step = [] /\ k <> TIMESTAMP))
         signatures.
Proof.
  intros Hbigint Hdate Htimestamp. unfold signatures.
  repeat (apply List.Forall_cons); [| | | | | apply List.Forall_nil].
  - exists BIGINT, []. cbn. rewrite Hbigint.
    split; [reflexivity|]. split; [reflexivity|]. split; [reflexivity|].
    right. split; [reflexivity | discriminate].
  - exists BIGINT, ["bigint"]. cbn. rewrite Hbigint.
    split; [reflexivity|]. split; [reflexivity|]. split; [reflexivity|].
    left. reflexivity.
  - exists DATE, []. cbn. rewrite Hdate.
    split; [reflexivity|]. split; [reflexivity|]. split; [reflexivity|].
    right. split; [reflexivity | discriminate].
  - exists DATE, ["interval day to second"]. cbn. rewrite Hdate.
    split; [reflexivity|]. split; [reflexivity|]. split; [reflexivity|].
    left. reflexivity.
  - exists TIMESTAMP, ["interval day to second"]. cbn. rewrite Htimestamp.
    split; [reflexivity|]. split; [reflexivity|]. split; [reflexivity|].
    left. reflexivity.
Qed.

Lemma signatures_are_handled_witness :
  Forall (fun sig : FunctionSignature =>
            exists (k : TypeKind) (step : list string),
              argumentTypes sig = typeName k :: typeName k :: step /\
              create
                ((fun name : string =>
                    if String.eqb name "bigint" then KnownKind BIGINT
                    else if String.eqb name "date" then KnownKind DATE
                    else if String.eqb name "timestamp" then KnownKind TIMESTAMP
                    else OtherKind) (typeName k)) = Some k /\
              returnType sig =
                String.append "array(" (String.append (typeName k) ")") /\
              (step = [stepTypeName k] \/ step = [] /\ k <> TIMESTAMP))
         signatures.
Proof.
  apply (signatures_are_handled
           (fun name : string =>
              if String.eqb name "bigint" then KnownKind BIGINT
              else if String.eqb name "date" then KnownKind DATE
              else if String.eqb name "timestamp" then KnownKind TIMESTAMP
              else OtherKind)); reflexivity.
Defined.

(** ** Symmetries of validation *)

(** [checkArguments] on 64-bit values, without the 128-bit casts. *)
Lemma checkArguments_formula start stop step :
  Int.fits 64 start -> Int.fits 64 stop -> Int.fits 64 step ->
  checkArguments start stop step =
    if step =? 0 then Throw ZeroStep
    else if negb (directionOk start stop step) then Throw DirectionMismatch
    else if Z.quot (stop - start) step + 1 <=? kMaxResultEntries
         then Ok (Z.quot (stop - start) step + 1)
         else Throw ResultTooLarge.
Proof.
  intros Hstart Hstop Hstep.
  destruct (checkArguments_cases start stop step Hstart Hstop Hstep)
    as [(Hz & ->)|[(Hnz & Hdir & ->)|[(Hnz & Hdir & Hle & ->)|(Hnz & Hdir & Hgt & ->)]]].
  - now rewrite Hz.
  - destruct (Z.eqb_spec step 0); [contradiction|]. now rewrite Hdir.
  - destruct (Z.eqb_spec step 0); [contradiction|]. rewrite Hdir. cbn [negb].
    destruct (Z.leb_spec (Z.quot (stop - start) step + 1) kMaxResultEntries);
      [reflexivity | lia].
  - destruct (Z.eqb_spec step 0); [contradiction|]. rewrite Hdir. cbn [negb].
    destruct (Z.leb_spec (Z.quot (stop - start) step + 1) kMaxResultEntries);
      [lia | reflexivity].
Qed.

(** X13.  Validation depends on start and stop through their difference
    and direction only: moving both by the same amount changes neither
    the count nor the error, and so does running the row backwards, from
    stop to start with the opposite step. *)
Theorem checkArguments_symmetries (start stop step d : Z) :
  Int.fits 64 start -> Int.fits 64 stop -> Int.fits 64 step ->
  Int.fits 64 (start + d) -> Int.fits 64 (stop + d) -> Int.fits 64 (- step) ->
  checkArguments (start + d) (stop + d) step = checkArguments start stop step /\
  checkArguments stop start (- step) = checkArguments start stop step.
Proof.
  intros Hstart Hstop Hstep Hstart' Hstop' Hstep'.
  rewrite (checkArguments_formula start stop step) by assumption.
  rewrite (checkArguments_formula (start + d) (stop + d) step) by assumption.
  rewrite (checkArguments_formula stop start (- step)) by assumption.
  rewrite !directionOk_eq.
  replace (stop + d - (start + d)) with (stop - start) by lia.
  destruct (Z.eqb_spec step 0) as [->|Hnz]; [now split|].
  split.
  - destruct (0 <? step).
    + destruct (Z.leb_spec (start + d) (stop + d)), (Z.leb_spec start stop);
        first [reflexivity | lia].
    + destruct (Z.leb_spec (stop + d) (start + d)), (Z.leb_spec stop start);
        first [reflexivity | lia].
  - destruct (Z.eqb_spec (- step) 0); [lia|].
    replace (start - stop) with (- (stop - start)) by lia.
    rewrite Z.quot_opp_opp by assumption.
    destruct (Z.ltb_spec 0 (- step)), (Z.ltb_spec 0 step);
      first [reflexivity | lia].
Qed.

Lemma checkArguments_symmetries_witness :
  checkArguments 10 1 (- 3) = checkArguments 1 10 3.
Proof.
  refine (proj2 (checkArguments_symmetries 1 10 3 0 _ _ _ _ _ _)); fits_now.
Defined.

(** ** The running total of the first pass *)

(** X14.  The first pass of [apply] completes on every batch: each
    selected row gets its size or its error, and the running total
    [numElements] is the sum of the sizes reduced to 32 bits, which is
    the sum itself only as long as that fits [vector_size_t]. *)
Theorem first_pass_total {k : TypeKind} (rows : SelectivityVector)
    (args : Args k) (context : EvalCtx) :
  applyToSelectedNoThrow rows (sizeRow args (isDateKind k)) context
    (mkSizePass (allocateSizes (rowsEnd rows)) 0) =
    Some (context ++ errorsFrom args 0 rows,
          mkSizePass (sizesFrom args 0 rows) (int32 (totalSize rows args))) /\
  (totalSize rows args <= Int.max_signed 32 -> wellTyped args ->
   int32 (totalSize rows args) = totalSize rows args).
Proof.
  split.
  - unfold applyToSelectedNoThrow, rowsEnd, allocateSizes.
    pose proof (sizePass_run args rows 0%nat [] context 0 eq_refl) as Hpass1.
    cbn [app] in Hpass1. rewrite Hpass1 by (rewrite fits32_iff; lia).
    reflexivity.
  - intros Hmax Hwt.
    pose proof (sizesFrom_nonneg args rows Hwt 0%nat) as Hnn.
    fold (totalSize rows args) in Hnn.
    change (Int.max_signed 32) with 2147483647 in Hmax.
    apply int32_fits. rewrite fits32_iff. lia.
Qed.

Lemma first_pass_total_witness :
  int32 (totalSize [true; true]
           (@mkArgs BIGINT (columnOf 0 [1; 5]) (columnOf 0 [5; 1]) None)) =
  totalSize [true; true]
    (@mkArgs BIGINT (columnOf 0 [1; 5]) (columnOf 0 [5; 1]) None).
Proof.
  refine (proj2 (first_pass_total (k := BIGINT) [true; true]
                   (@mkArgs BIGINT (columnOf 0 [1; 5]) (columnOf 0 [5; 1]) None)
                   []) _ _).
  - vm_compute. discriminate.
  - apply (wellTyped_columnOf (k := BIGINT) 0 [1; 5] 0 [5; 1] None); reflexivity.
Defined.

(** ** Beyond the 32-bit total

    [numElements] and [elementsOffset] are [vector_size_t]: a batch whose
    sizes add up to more than a [vector_size_t] holds gets an element
    buffer of the wrapped length. *)





